(** * mtglabels/generator.py: layout, pagination, cutting guides, selection

    A shallow embedding of [LabelGenerator] (src/mtglabels/generator.py) and
    of the module-level tables it reads, followed by the properties of the
    layout engine, of the selection stage and of the rename table.

    Conventions of the embedding.
    - Python [int] is [Z]; [//] and [%] are [Z.div] and [Z.modulo], which
      round like Python's (floor, remainder with the sign of the divisor).
    - Python [float] values ([delta_x], [delta_y], the label and guide
      coordinates) are exact rationals [Q]: [a / b] on integers is the
      rational [a / b] and [0.8] is [8/10].  Binary rounding is not modelled.
    - A [dict] with string keys is a [gmap string _]; a [set] of strings is
      a [gset string]; tuples and lists are lists.
    - [self] is a record threaded through the methods that assign to it.
    - Network and file-system calls are replaced by their results: the
      decoded catalog response, the decoded symbology response (or its
      failure), the icon fetch as a function of the URL, and the sequence
      of rendered pages in place of the files written. *)

From Stdlib Require Import ZArith QArith Qround Qabs Lia Ascii String.
From stdpp Require Import base option list strings pretty gmap.

Local Open Scope Z_scope.

(** ** Module-level tables *)

Definition SET_TYPES : list string :=
  [ "core"; "expansion"; "starter"; "masters"; "commander"; "planechase";
    "draft_innovation"; "duel_deck"; "premium_deck"; "from_the_vault";
    "archenemy"; "box"; "funny" ].

Definition MINIMUM_SET_SIZE : Z := 50.

Definition IGNORED_SETS : list string := [ "cmb1"; "amh1"; "cmb2" ].

(** ** Class attributes of [LabelGenerator] *)

Definition COLS : Z := 4.
Definition ROWS : Z := 15.
(** The class attribute [MARGIN]; an instance may shadow it, see
    [self_MARGIN]. *)
Definition MARGIN : Z := 100.
(** [START_X = MARGIN] and [START_Y = MARGIN] are evaluated once, in the
    class body, so they are the class-level margin whatever the instance
    does later. *)
Definition START_X : Z := MARGIN.
Definition START_Y : Z := MARGIN.
Definition WIDE_LABEL_MM : Z := 88.

Record Paper := { paper_width : Z; paper_height : Z }.

Definition PAPER_SIZES : gmap string Paper :=
  <[ "letter" := {| paper_width := 2790; paper_height := 2160 |} ]>
  (<[ "a4" := {| paper_width := 2970; paper_height := 2100 |} ]> ∅).

Definition DEFAULT_PAPER_SIZE : string := "letter".

Definition COLOR_SYMBOLS : list (string * string) :=
  [ ("W", "White"); ("U", "Blue"); ("B", "Black");
    ("R", "Red"); ("G", "Green"); ("C", "Colorless") ].

(** ** Numbers *)

(** Python's [round] on a float, then [int]: nearest integer, ties to the
    even one. *)
Definition py_round (q : Q) : Z :=
  let f := Qfloor q in
  match (q - inject_Z f ?= 1 # 2)%Q with
  | Lt => f
  | Gt => f + 1
  | Eq => if Z.even f then f else f + 1
  end.

(** True division of two integers. *)
Definition true_div (a b : Z) : Q := (inject_Z a / inject_Z b)%Q.

(** The ceiling of a quotient of integers. *)
Definition ceil_div (n d : Z) : Z := Qceiling (inject_Z n / inject_Z d).

(** ** The instance *)

Record LabelGenerator := {
  paper_size : string;
  portrait : bool;
  set_codes : list string;
  ignored_sets : list string;
  set_types : list string;
  minimum_set_size : Z;
  width : Z;
  height : Z;
  (** [self.MARGIN]: the instance attribute when [margin_mm] was given,
      the class attribute otherwise. *)
  self_MARGIN : Z;
  delta_x : Q;
  delta_y : Q;
  output_dir : string;
  generate_pdfs : bool;
  include_color_labels : bool;
  (** [self._wide_cols]; [None] until [layout_wide_labels] has run
      ([hasattr] is false). *)
  _wide_cols : option Z
}.

(** [LabelGenerator.__init__]; [None] is the [KeyError] of an unknown paper
    size. *)
Definition __init__ (paper_size : string) (output_dir : string)
    (generate_pdfs include_color_labels portrait : bool)
    (margin_mm : option Q) : option LabelGenerator :=
  paper ← PAPER_SIZES !! paper_size;
  let paper :=
    if portrait
    then {| paper_width := paper_height paper;
            paper_height := paper_width paper |}
    else paper in
  let margin :=
    match margin_mm with
    | Some m => py_round (m * 10)
    | None => MARGIN
    end in
  Some {| paper_size := paper_size;
          portrait := portrait;
          set_codes := [];
          ignored_sets := IGNORED_SETS;
          set_types := SET_TYPES;
          minimum_set_size := MINIMUM_SET_SIZE;
          width := paper_width paper;
          height := paper_height paper;
          self_MARGIN := margin;
          delta_x := true_div (paper_width paper - 2 * margin) COLS;
          delta_y := true_div (paper_height paper - 2 * margin) ROWS;
          output_dir := output_dir;
          generate_pdfs := generate_pdfs;
          include_color_labels := include_color_labels;
          _wide_cols := None |}.

(** ** Labels *)

(** A laid-out label: the raw item's keys plus ["x"], ["y"] and, in wide
    mode, ["width"] and ["_page"]. *)
Record PositionedLabel (A : Type) := {
  item : A;
  x : Q;
  y : Q;
  label_width : option Z;
  page_index : option Z
}.
Arguments item {A}.
Arguments x {A}.
Arguments y {A}.
Arguments label_width {A}.
Arguments page_index {A}.

Section Layout.
Context {A : Type}.

(** [LabelGenerator.layout_labels] *)
Definition layout_labels (self : LabelGenerator) (raw_items : list A)
    : list (PositionedLabel A) :=
  imap (λ (n : nat) (it : A),
          let idx := Z.of_nat n in
          let col := (idx / ROWS) mod COLS in
          let row := idx mod ROWS in
          let x := (inject_Z START_X + inject_Z col * delta_x self)%Q in
          let y := (inject_Z START_Y + inject_Z row * delta_y self)%Q in
          {| item := it; x := x; y := y;
             label_width := None; page_index := None |})
       raw_items.
End Layout.

(** ** The catalog service, as seen by the generator *)

(** One element of the ["data"] list of [/sets]. *)
Record SetRecord := {
  exp_code : string;
  exp_name : string;
  exp_set_type : string;
  exp_card_count : Z;
  exp_released_at : string;
  exp_icon_svg_uri : string
}.

(** One element of the ["data"] list of [/symbology]. *)
Record Symbol := {
  symbol : string;
  svg_uri : option string
}.

(** What the requests of one run return: the set list, the symbol list
    ([None] when the request or its decoding raises), and for each icon URL
    the base64 text of the body, [None] when the response is not [ok]. *)
Record Scryfall := {
  sets_data : list SetRecord;
  symbology_data : option (list Symbol);
  icon_b64_of : string → option string
}.

(** ** Strings *)

Definition lower_ascii (c : ascii) : ascii :=
  let n := nat_of_ascii c in
  if ((65 <=? n)%nat && (n <=? 90)%nat)%bool then ascii_of_nat (n + 32) else c.

(** [str.lower], on ASCII letters. *)
Fixpoint lower (s : string) : string :=
  match s with
  | EmptyString => EmptyString
  | String c s => String (lower_ascii c) (lower s)
  end.

Definition is_brace (c : ascii) : bool :=
  (Ascii.eqb c "{" || Ascii.eqb c "}")%bool.

Fixpoint lstrip_braces (s : list ascii) : list ascii :=
  match s with
  | c :: s' => if is_brace c then lstrip_braces s' else s
  | [] => []
  end.

(** [s.strip("{}")] *)
Definition strip_braces (s : string) : string :=
  string_of_list_ascii
    (reverse (lstrip_braces (reverse (lstrip_braces (list_ascii_of_string s))))).

(** Truth value of [item.get("svg_uri")]. *)
Definition has_svg_uri (s : Symbol) : bool :=
  match svg_uri s with
  | Some (String _ _) => true
  | _ => false
  end.

(** ** Raw label items *)

Record RawLabel := {
  name : string;
  code : string;
  (** the release date, kept as the catalog's ISO text; [None] for a
      colour label *)
  date : option string;
  icon_url : string;
  icon_b64 : option string
}.

Record WideRawLabel := {
  set_name : string;
  set_code : string;
  set_icon_b64 : option string;
  color_code : string;
  color_name : string;
  color_icon_b64 : option string
}.

(** [LabelGenerator.get_color_label_raw] *)
Definition get_color_label_raw (api : Scryfall) : list RawLabel :=
  match symbology_data api with
  | None => []
  | Some data =>
      let symbol_map : gmap string Symbol :=
        foldl (λ m it, <[ strip_braces (symbol it) := it ]> m) ∅
              (filter (λ it, has_svg_uri it = true) data) in
      '(code, name) ← COLOR_SYMBOLS;
      match symbol_map !! code with
      | None => []
      | Some info =>
          let uri := default "" (svg_uri info) in
          [ {| name := name; code := code; date := None;
               icon_url := uri; icon_b64 := icon_b64_of api uri |} ]
      end
  end.

(** ** The rename table *)

(** The items of the [RENAME_SETS] literal, in source order. *)
Definition RENAME_SETS_items : list (string * string) :=
  [
    ("Adventures in the Forgotten Realms",
     "Forgotten Realms");
    ("Adventures in the Forgotten Realms Minigames",
     "Forgotten Realms Minigames");
    ("Angels: They're Just Like Us but Cooler and with Wings",
     "Angels: Just Like Us");
    ("Archenemy: Nicol Bolas Schemes",
     "Archenemy: Bolas Schemes");
    ("Chronicles Foreign Black Border",
     "Chronicles FBB");
    ("Commander Anthology Volume II",
     "Commander Anthology II");
    ("Commander Legends: Battle for Baldur's Gate",
     "CMDR Legends: Baldur's Gate");
    ("Dominaria United Commander",
     "Dominaria United [C]");
    ("Duel Decks: Elves vs. Goblins",
     "DD: Elves vs. Goblins");
    ("Duel Decks: Jace vs. Chandra",
     "DD: Jace vs. Chandra");
    ("Duel Decks: Divine vs. Demonic",
     "DD: Divine vs. Demonic");
    ("Duel Decks: Garruk vs. Liliana",
     "DD: Garruk vs. Liliana");
    ("Duel Decks: Phyrexia vs. the Coalition",
     "DD: Phyrexia vs. Coalition");
    ("Duel Decks: Elspeth vs. Tezzeret",
     "DD: Elspeth vs. Tezzeret");
    ("Duel Decks: Knights vs. Dragons",
     "DD: Knights vs. Dragons");
    ("Duel Decks: Ajani vs. Nicol Bolas",
     "DD: Ajani vs. Nicol Bolas");
    ("Duel Decks: Heroes vs. Monsters",
     "DD: Heroes vs. Monsters");
    ("Duel Decks: Speed vs. Cunning",
     "DD: Speed vs. Cunning");
    ("Duel Decks Anthology: Elves vs. Goblins",
     "DDA: Elves vs. Goblins");
    ("Duel Decks Anthology: Jace vs. Chandra",
     "DDA: Jace vs. Chandra");
    ("Duel Decks Anthology: Divine vs. Demonic",
     "DDA: Divine vs. Demonic");
    ("Duel Decks Anthology: Garruk vs. Liliana",
     "DDA: Garruk vs. Liliana");
    ("Duel Decks: Elspeth vs. Kiora",
     "DD: Elspeth vs. Kiora");
    ("Duel Decks: Zendikar vs. Eldrazi",
     "DD: Zendikar vs. Eldrazi");
    ("Duel Decks: Blessed vs. Cursed",
     "DD: Blessed vs. Cursed");
    ("Duel Decks: Nissa vs. Ob Nixilis",
     "DD: Nissa vs. Ob Nixilis");
    ("Duel Decks: Merfolk vs. Goblins",
     "DD: Merfolk vs. Goblins");
    ("Duel Decks: Elves vs. Inventors",
     "DD: Elves vs. Inventors");
    ("Duel Decks: Mirrodin Pure vs. New Phyrexia",
     "DD: Mirrodin vs.New Phyrexia");
    ("Duel Decks: Izzet vs. Golgari",
     "Duel Decks: Izzet vs. Golgari");
    ("Fourth Edition Foreign Black Border",
     "Fourth Edition FBB");
    ("Global Series Jiang Yanggu & Mu Yanling",
     "Jiang Yanggu & Mu Yanling");
    ("Innistrad: Crimson Vow Minigames",
     "Crimson Vow Minigames");
    ("Introductory Two-Player Set",
     "Intro Two-Player Set");
    ("March of the Machine: The Aftermath",
     "MotM: The Aftermath");
    ("March of the Machine Commander",
     "March of the Machine [C]");
    ("Murders at Karlov Manor Commander",
     "Murders at Karlov Manor [C]");
    ("Mystery Booster Playtest Cards",
     "Mystery Booster Playtest");
    ("Mystery Booster Playtest Cards 2019",
     "MB Playtest Cards 2019");
    ("Mystery Booster Playtest Cards 2021",
     "MB Playtest Cards 2021");
    ("Mystery Booster Retail Edition Foils",
     "Mystery Booster Retail Foils");
    ("Outlaws of Thunder Junction Commander",
     "Outlaws of Thunder Junction [C]");
    ("Phyrexia: All Will Be One Commander",
     "Phyrexia: All Will Be One [C]");
    ("Planechase Anthology Planes",
     "Planechase Anth. Planes");
    ("Premium Deck Series: Slivers",
     "Premium Deck Slivers");
    ("Premium Deck Series: Graveborn",
     "Premium Deck Graveborn");
    ("Premium Deck Series: Fire and Lightning",
     "PD: Fire & Lightning");
    ("Shadows over Innistrad Remastered",
     "SOI Remastered");
    ("Strixhaven: School of Mages Minigames",
     "Strixhaven Minigames");
    ("Tales of Middle-earth Commander",
     "Tales of Middle-earth [C]");
    ("The Brothers' War Retro Artifacts",
     "Brothers' War Retro");
    ("The Brothers' War Commander",
     "Brothers' War Commander");
    ("The Lord of the Rings: Tales of Middle-earth",
     "LOTR: Tales of Middle-earth");
    ("The Lost Caverns of Ixalan Commander",
     "The Lost Caverns of Ixalan [C]");
    ("Warhammer 40,000 Commander",
     "Warhammer 40K [C]");
    ("Wilds of Eldraine Commander",
     "Wilds of Eldraine [C]");
    ("World Championship Decks 1997",
     "World Championship 1997");
    ("World Championship Decks 1998",
     "World Championship 1998");
    ("World Championship Decks 1999",
     "World Championship 1999");
    ("World Championship Decks 2000",
     "World Championship 2000");
    ("World Championship Decks 2001",
     "World Championship 2001");
    ("World Championship Decks 2002",
     "World Championship 2002");
    ("World Championship Decks 2003",
     "World Championship 2003");
    ("World Championship Decks 2004",
     "World Championship 2004") ].

(** A dict display keeps, for a repeated key, the last value given. *)
Definition dict_of_items {V : Type} (items : list (string * V)) : gmap string V :=
  foldl (λ m kv, <[ kv.1 := kv.2 ]> m) ∅ items.

Definition RENAME_SETS : gmap string string := dict_of_items RENAME_SETS_items.

(** [RENAME_SETS.get(name, name)], the substitution applied to a catalog
    name by [get_set_label_raw] and [generate_color_set_mode]. *)
Definition rename (n : string) : string := default n (RENAME_SETS !! n).

(** ** Selection *)

(** Truth value of a list or tuple. *)
Definition truthy {B : Type} (l : list B) : bool :=
  match l with [] => false | _ :: _ => true end.

(** The test of the loop body of [get_set_data]: [true] when the record
    reaches the final [else] and is appended. *)
Definition selected (self : LabelGenerator) (exp : SetRecord) : bool :=
  if bool_decide (exp_code exp ∈ ignored_sets self) then false
  else if exp_card_count exp <? minimum_set_size self then false
  else if truthy (set_types self)
          && negb (bool_decide (exp_set_type exp ∈ set_types self)) then false
  else if truthy (set_codes self)
          && negb (bool_decide (lower (exp_code exp) ∈ set_codes self)) then false
  else true.

(** The codes passed to [log.warning("Unknown set '%s'", _)]; they come out
    of a set difference, so each is reported once, in no specified order. *)
Definition unknown_sets (self : LabelGenerator) (data : list SetRecord)
    : gset string :=
  if truthy (set_codes self) then
    let known_sets : gset string := list_to_set (exp_code <$> data) in
    let specified_sets : gset string := list_to_set (lower <$> set_codes self) in
    specified_sets ∖ known_sets
  else ∅.

(** [LabelGenerator.get_set_data]: the returned list and the warnings. *)
Definition get_set_data (self : LabelGenerator) (api : Scryfall)
    : list SetRecord * gset string :=
  let data := sets_data api in
  let set_data :=
    foldl (λ acc exp, if selected self exp then acc ++ [exp] else acc) [] data in
  (reverse set_data, unknown_sets self data).

(** [LabelGenerator.get_set_label_raw] *)
Definition get_set_label_raw (self : LabelGenerator) (api : Scryfall)
    : list RawLabel :=
  (λ exp, {| name := rename (exp_name exp);
             code := exp_code exp;
             date := Some (exp_released_at exp);
             icon_url := exp_icon_svg_uri exp;
             icon_b64 := icon_b64_of api (exp_icon_svg_uri exp) |})
  <$> (get_set_data self api).1.

(** ** Cutting guides *)

Record Guide := { x1 : Q; x2 : Q; y1 : Q; y2 : Q }.

(** [range(n)] *)
Definition range (n : Z) : list Z := seqZ 0 n.

Definition half (m : Z) : Q := true_div m 2.
Definition four_fifths (m : Z) : Q := (inject_Z m * (8 # 10))%Q.

(** [LabelGenerator.create_horizontal_cutting_guides] *)
Definition create_horizontal_cutting_guides (self : LabelGenerator) : list Guide :=
  i ← range (ROWS + 1);
  let m := self_MARGIN self in
  let yy := (inject_Z m + inject_Z i * delta_y self)%Q in
  [ {| x1 := half m; x2 := four_fifths m; y1 := yy; y2 := yy |};
    {| x1 := (inject_Z (width self) - half m)%Q;
       x2 := (inject_Z (width self) - four_fifths m)%Q;
       y1 := yy; y2 := yy |} ].

(** [LabelGenerator.create_vertical_cutting_guides] *)
Definition create_vertical_cutting_guides (self : LabelGenerator) : list Guide :=
  i ← range (COLS + 1);
  let m := self_MARGIN self in
  let xx := (inject_Z m + inject_Z i * delta_x self)%Q in
  [ {| x1 := xx; x2 := xx; y1 := half m; y2 := four_fifths m |};
    {| x1 := xx; x2 := xx;
       y1 := (inject_Z (height self) - half m)%Q;
       y2 := (inject_Z (height self) - four_fifths m)%Q |} ].

(** The [for] loop of [_wide_vertical_guides], with its [break]. *)
Fixpoint wide_guides_loop (self : LabelGenerator) (cell_w : Z) (indices : list Z)
    : list Guide :=
  match indices with
  | [] => []
  | i :: indices =>
      let m := self_MARGIN self in
      let xx := m + i * cell_w in
      if xx >? width self - m then []
      else
        {| x1 := inject_Z xx; x2 := inject_Z xx;
           y1 := half m; y2 := four_fifths m |}
        :: {| x1 := inject_Z xx; x2 := inject_Z xx;
              y1 := (inject_Z (height self) - half m)%Q;
              y2 := (inject_Z (height self) - four_fifths m)%Q |}
        :: wide_guides_loop self cell_w indices
  end.

(** [LabelGenerator._wide_vertical_guides] *)
Definition _wide_vertical_guides (self : LabelGenerator) : list Guide :=
  match _wide_cols self with
  | None => []
  | Some wide_cols =>
      wide_guides_loop self (WIDE_LABEL_MM * 10) (range (wide_cols + 1))
  end.

(** ** Wide layout *)

Definition set_wide_cols (self : LabelGenerator) (cols : Z) : LabelGenerator :=
  {| paper_size := paper_size self;
     portrait := portrait self;
     set_codes := set_codes self;
     ignored_sets := ignored_sets self;
     set_types := set_types self;
     minimum_set_size := minimum_set_size self;
     width := width self;
     height := height self;
     self_MARGIN := self_MARGIN self;
     delta_x := delta_x self;
     delta_y := delta_y self;
     output_dir := output_dir self;
     generate_pdfs := generate_pdfs self;
     include_color_labels := include_color_labels self;
     _wide_cols := Some cols |}.

Section WideLayout.
Context {A : Type}.

(** [LabelGenerator.layout_wide_labels]: the instance with [_wide_cols]
    stored, and the returned list. *)
Definition layout_wide_labels (self : LabelGenerator) (raw_items : list A)
    : LabelGenerator * list (PositionedLabel A) :=
  let cell_w := WIDE_LABEL_MM * 10 in
  let usable := width self - 2 * self_MARGIN self in
  let cols := Z.max 1 (usable / cell_w) in
  (set_wide_cols self cols,
   imap (λ (n : nat) (it : A),
           let idx := Z.of_nat n in
           let col := idx mod cols in
           let row := (idx / cols) mod ROWS in
           let page_index := idx / (cols * ROWS) in
           let x := inject_Z (START_X + col * cell_w) in
           let y := (inject_Z START_Y + inject_Z row * delta_y self)%Q in
           {| item := it; x := x; y := y;
              label_width := Some cell_w; page_index := Some page_index |})
        raw_items).
End WideLayout.

(** ** Pages *)

(** One rendered and written page: the template, the page number that goes
    into the file name, and the arguments of [template.render]. *)
Record Page (A : Type) := {
  template : string;
  page : Z;
  labels : list (PositionedLabel A);
  horizontal_guides : list Guide;
  vertical_guides : list Guide;
  WIDTH : Z;
  HEIGHT : Z
}.
Arguments template {A}.
Arguments page {A}.
Arguments labels {A}.
Arguments horizontal_guides {A}.
Arguments vertical_guides {A}.
Arguments WIDTH {A}.
Arguments HEIGHT {A}.

Section Pages.
Context {A : Type}.

(** The inner loop
    [while labels and len(exps) < per_page: exps.append(labels.pop(0))];
    returns [exps] and what is left of [labels]. *)
Fixpoint fill_page (per_page : Z) (exps labels : list A) : list A * list A :=
  match labels with
  | [] => (exps, [])
  | l :: rest =>
      if Z.of_nat (length exps) <? per_page
      then fill_page per_page (exps ++ [l]) rest
      else (exps, labels)
  end.

(** The outer loop [while labels: ...; page += 1]; [render] builds the
    page from its number and its labels.  Each turn costs one unit of
    fuel; [None] when the fuel runs out before [labels] is empty. *)
Fixpoint page_loop {P : Type} (fuel : nat) (per_page : Z)
    (render : Z → list A → P) (page : Z) (labels : list A)
    : option (list P) :=
  match labels with
  | [] => Some []
  | _ :: _ =>
      match fuel with
      | O => None
      | S fuel =>
          let '(exps, labels) := fill_page per_page [] labels in
          (render page exps ::.) <$> page_loop fuel per_page render (page + 1) labels
      end
  end.
End Pages.

(** ** The two entry points *)

Definition set_filters (self : LabelGenerator) (sets : list string)
    : LabelGenerator :=
  {| paper_size := paper_size self;
     portrait := portrait self;
     set_codes := lower <$> sets;
     ignored_sets := [];
     set_types := [];
     minimum_set_size := 0;
     width := width self;
     height := height self;
     self_MARGIN := self_MARGIN self;
     delta_x := delta_x self;
     delta_y := delta_y self;
     output_dir := output_dir self;
     generate_pdfs := generate_pdfs self;
     include_color_labels := include_color_labels self;
     _wide_cols := _wide_cols self |}.

(** The opening [if sets: ...] of both entry points; [sets] is [None] or a
    list. *)
Definition narrow (self : LabelGenerator) (sets : option (list string))
    : LabelGenerator :=
  match sets with
  | Some (s :: ss) => set_filters self (s :: ss)
  | _ => self
  end.

(** What a call leaves behind: the instance, the codes warned about as
    unknown sets, and the pages written, in order ([None]: the page loop
    did not come to an end within its fuel). *)
Record Run (A : Type) := {
  self_after : LabelGenerator;
  warned : gset string;
  written : option (list (Page A))
}.
Arguments self_after {A}.
Arguments warned {A}.
Arguments written {A}.

(** The [raw_items] of [generate_labels]: the colour labels when asked
    for, then the set labels. *)
Definition uniform_raw_items (self : LabelGenerator) (api : Scryfall)
    : list RawLabel :=
  (if include_color_labels self then get_color_label_raw api else [])
  ++ get_set_label_raw self api.

(** The page rendered and written by one turn of the loop of
    [generate_labels]. *)
Definition uniform_page (self : LabelGenerator) (page : Z)
    (exps : list (PositionedLabel RawLabel)) : Page RawLabel :=
  {| template := "labels.svg"; page := page; labels := exps;
     horizontal_guides := create_horizontal_cutting_guides self;
     vertical_guides := create_vertical_cutting_guides self;
     WIDTH := width self; HEIGHT := height self |}.

(** The page loop of [generate_labels], from [page = 1].  It removes at
    least one label per turn, so it is given one unit of fuel per label. *)
Definition write_uniform_pages (self : LabelGenerator)
    (labels : list (PositionedLabel RawLabel)) : option (list (Page RawLabel)) :=
  page_loop (length labels) (ROWS * COLS) (uniform_page self) 1 labels.

(** [LabelGenerator.generate_labels] *)
Definition generate_labels (self : LabelGenerator) (api : Scryfall)
    (sets : option (list string)) : Run RawLabel :=
  let self := narrow self sets in
  let raw_items := uniform_raw_items self api in
  let labels := layout_labels self raw_items in
  {| self_after := self;
     warned := (get_set_data self api).2;
     written := write_uniform_pages self labels |}.

(** The raw items of [generate_color_set_mode]: one per surviving set and
    per colour of [COLOR_SYMBOLS] known to [color_map], the set icon fetched
    once per code through [set_icon_cache]. *)
Definition color_set_raw (self : LabelGenerator) (api : Scryfall)
    : list WideRawLabel :=
  let color_entries := get_color_label_raw api in
  let color_map : gmap string RawLabel :=
    foldl (λ m e, <[ code e := e ]> m) ∅ color_entries in
  let set_data := (get_set_data self api).1 in
  (foldl
     (λ '(set_icon_cache, labels_raw) exp,
        let set_icon_cache : gmap string (option string) :=
          match set_icon_cache !! exp_code exp with
          | Some _ => set_icon_cache
          | None => <[ exp_code exp := icon_b64_of api (exp_icon_svg_uri exp) ]>
                      set_icon_cache
          end in
        let set_icon_b64 := default None (set_icon_cache !! exp_code exp) in
        (set_icon_cache,
         labels_raw ++
           ('(ccode, _) ← COLOR_SYMBOLS;
            match color_map !! ccode with
            | None => []
            | Some cinfo =>
                [ {| set_name := rename (exp_name exp);
                     set_code := exp_code exp;
                     set_icon_b64 := set_icon_b64;
                     color_code := ccode;
                     color_name := name cinfo;
                     color_icon_b64 := icon_b64 cinfo |} ]
            end)))
     (∅, []) set_data).2.

(** The page rendered and written by one turn of the loop of
    [generate_color_set_mode]. *)
Definition wide_page (self : LabelGenerator) (page : Z)
    (batch : list (PositionedLabel WideRawLabel)) : Page WideRawLabel :=
  {| template := "labels_color_sets.svg"; page := page; labels := batch;
     horizontal_guides := create_horizontal_cutting_guides self;
     vertical_guides := _wide_vertical_guides self;
     WIDTH := width self; HEIGHT := height self |}.

(** The page loop of [generate_color_set_mode], with
    [per_page = getattr(self, "_wide_cols", self.COLS) * self.ROWS]. *)
Definition write_wide_pages (self : LabelGenerator)
    (laid_out : list (PositionedLabel WideRawLabel))
    : option (list (Page WideRawLabel)) :=
  let per_page := default COLS (_wide_cols self) * ROWS in
  page_loop (length laid_out) per_page (wide_page self) 1 laid_out.

(** [LabelGenerator.generate_color_set_mode] *)
Definition generate_color_set_mode (self : LabelGenerator) (api : Scryfall)
    (sets : option (list string)) : Run WideRawLabel :=
  let self := narrow self sets in
  let labels_raw := color_set_raw self api in
  let '(self, laid_out) := layout_wide_labels self labels_raw in
  {| self_after := self;
     warned := (get_set_data self api).2;
     written := write_wide_pages self laid_out |}.

(** ** The selection stage, in the words of its contract *)

Section Contract.
Context (self : LabelGenerator).

(** 1. the code is not in the ignore set *)
Definition not_ignored (exp : SetRecord) : Prop :=
  exp_code exp ∉ ignored_sets self.
(** 2. the size metric is not below the minimum-size threshold *)
Definition large_enough (exp : SetRecord) : Prop :=
  ¬ exp_card_count exp < minimum_set_size self.
(** 3. the category is in the allowed set; no restriction when that set
    is empty *)
Definition category_allowed (exp : SetRecord) : Prop :=
  set_types self = [] ∨ exp_set_type exp ∈ set_types self.
(** 4. when a code allow-list is present, the lowercased code is listed *)
Definition code_listed (exp : SetRecord) : Prop :=
  set_codes self = [] ∨ lower (exp_code exp) ∈ set_codes self.

#[global] Instance not_ignored_dec exp : Decision (not_ignored exp) :=
  decide (exp_code exp ∉ ignored_sets self).
#[global] Instance large_enough_dec exp : Decision (large_enough exp) :=
  decide (¬ exp_card_count exp < minimum_set_size self).
#[global] Instance category_allowed_dec exp : Decision (category_allowed exp) :=
  decide (set_types self = [] ∨ exp_set_type exp ∈ set_types self).
#[global] Instance code_listed_dec exp : Decision (code_listed exp) :=
  decide (set_codes self = [] ∨ lower (exp_code exp) ∈ set_codes self).

(** The four drops in the order of the contract, then the reversal. *)
Definition select_by_contract (data : list SetRecord) : list SetRecord :=
  reverse
    (filter code_listed
       (filter category_allowed
          (filter large_enough
             (filter not_ignored data)))).

(** The listed codes, lowercased, that are the code of no record. *)
Definition unmatched_codes (data : list SetRecord) (c : string) : Prop :=
  c ∈ (lower <$> set_codes self) ∧ ∀ exp, exp ∈ data → exp_code exp ≠ c.
End Contract.

(** ** Sample inputs *)

Definition sample_set : SetRecord :=
  {| exp_code := "lea";
     exp_name := "Limited Edition Alpha";
     exp_set_type := "core";
     exp_card_count := 295;
     exp_released_at := "1993-08-05";
     exp_icon_svg_uri := "https://svgs.scryfall.io/sets/lea.svg" |}.

(** A catalog of [n] records that pass the default filters, and no
    symbology. *)
Definition sample_api (n : nat) : Scryfall :=
  {| sets_data := replicate n sample_set;
     symbology_data := None;
     icon_b64_of := λ _, None |}.

Definition sample_label : RawLabel :=
  {| name := "Limited Edition Alpha"; code := "lea";
     date := Some "1993-08-05";
     icon_url := "https://svgs.scryfall.io/sets/lea.svg";
     icon_b64 := None |}.

Definition sample_wide_label : WideRawLabel :=
  {| set_name := "Limited Edition Alpha"; set_code := "lea";
     set_icon_b64 := None;
     color_code := "W"; color_name := "White"; color_icon_b64 := None |}.

(** [LabelGenerator()] with every default, and
    [LabelGenerator(margin_mm=100)], whose usable width (790) is less than
    one wide cell. *)
Definition letter_landscape : LabelGenerator :=
  {| paper_size := "letter"; portrait := false;
     set_codes := []; ignored_sets := IGNORED_SETS; set_types := SET_TYPES;
     minimum_set_size := MINIMUM_SET_SIZE;
     width := 2790; height := 2160; self_MARGIN := 100;
     delta_x := 2590 # 4; delta_y := 1960 # 15;
     output_dir := "output"; generate_pdfs := true;
     include_color_labels := false; _wide_cols := None |}.

Definition letter_narrow : LabelGenerator :=
  {| paper_size := "letter"; portrait := false;
     set_codes := []; ignored_sets := IGNORED_SETS; set_types := SET_TYPES;
     minimum_set_size := MINIMUM_SET_SIZE;
     width := 2790; height := 2160; self_MARGIN := 1000;
     delta_x := 790 # 4; delta_y := 160 # 15;
     output_dir := "output"; generate_pdfs := true;
     include_color_labels := false; _wide_cols := None |}.

Definition sample_set_mh1 : SetRecord :=
  {| exp_code := "mh1";
     exp_name := "Modern Horizons";
     exp_set_type := "draft_innovation";
     exp_card_count := 255;
     exp_released_at := "2019-06-14";
     exp_icon_svg_uri := "https://svgs.scryfall.io/sets/mh1.svg" |}.

(** The catalog lists the newest set first. *)
Definition two_set_api : Scryfall :=
  {| sets_data := [sample_set_mh1; sample_set];
     symbology_data := None;
     icon_b64_of := λ _, None |}.

(** ** Output file names *)

(** [f"{page:02}"]: the decimal numeral, padded with a zero on the left
    when it is shorter than two characters. *)
Definition format_02 (page : Z) : string :=
  let s := pretty page in
  if (String.length s <? 2)%nat then "0" +:+ s else s.

(** [orient = "-portrait" if self.portrait else ""] *)
Definition orient (self : LabelGenerator) : string :=
  if portrait self then "-portrait" else "".

(** The last component of [outfile_svg] and [outfile_pdf] in
    [generate_labels]:
    [f"labels-{self.paper_size}{orient}-{page:02}.svg"] (resp. [.pdf]). *)
Definition labels_svg (self : LabelGenerator) (page : Z) : string :=
  "labels-" +:+ paper_size self +:+ orient self +:+ "-" +:+ format_02 page +:+ ".svg".
Definition labels_pdf (self : LabelGenerator) (page : Z) : string :=
  "labels-" +:+ paper_size self +:+ orient self +:+ "-" +:+ format_02 page +:+ ".pdf".

(** The same in [generate_color_set_mode]:
    [f"labels-color-set-{self.paper_size}{orient}-{page:02}.svg"]. *)
Definition color_set_svg (self : LabelGenerator) (page : Z) : string :=
  "labels-color-set-" +:+ paper_size self +:+ orient self +:+ "-"
  +:+ format_02 page +:+ ".svg".
Definition color_set_pdf (self : LabelGenerator) (page : Z) : string :=
  "labels-color-set-" +:+ paper_size self +:+ orient self +:+ "-"
  +:+ format_02 page +:+ ".pdf".

(** [LabelGenerator(margin_mm=150)]: the two margins together exceed the
    page. *)
Definition letter_no_room : LabelGenerator :=
  {| paper_size := "letter"; portrait := false;
     set_codes := []; ignored_sets := IGNORED_SETS; set_types := SET_TYPES;
     minimum_set_size := MINIMUM_SET_SIZE;
     width := 2790; height := 2160; self_MARGIN := 1500;
     delta_x := -210 # 4; delta_y := -840 # 15;
     output_dir := "output"; generate_pdfs := true;
     include_color_labels := false; _wide_cols := None |}.

(** ** The wide raw items, as a product *)

(** The icon of the first record of [set_data] that has the code [c]. *)
Definition first_set_icon (api : Scryfall) (set_data : list SetRecord)
    (c : string) : option string :=
  default None
    ((λ e, icon_b64_of api (exp_icon_svg_uri e))
     <$> head (filter (λ e, exp_code e = c) set_data)).

(** One wide item per selected set and per colour label, sets first. *)
Definition color_set_product (self : LabelGenerator) (api : Scryfall)
    : list WideRawLabel :=
  let set_data := (get_set_data self api).1 in
  exp ← set_data;
  e ← get_color_label_raw api;
  [ {| set_name := rename (exp_name exp);
       set_code := exp_code exp;
       set_icon_b64 := first_set_icon api set_data (exp_code exp);
       color_code := code e;
       color_name := name e;
       color_icon_b64 := icon_b64 e |} ].

(** A catalog where two records share the code ["lea"] but not the icon
    URI, a symbology with white and green, and an icon service that
    answers each URI with the URI itself. *)
Definition duplicate_code_api : Scryfall :=
  {| sets_data :=
       [ {| exp_code := "lea"; exp_name := "Alpha reprint";
            exp_set_type := "core"; exp_card_count := 295;
            exp_released_at := "1994-01-01";
            exp_icon_svg_uri := "second.svg" |};
         sample_set_mh1;
         {| exp_code := "lea"; exp_name := "Limited Edition Alpha";
            exp_set_type := "core"; exp_card_count := 295;
            exp_released_at := "1993-08-05";
            exp_icon_svg_uri := "first.svg" |} ];
     symbology_data :=
       Some [ {| symbol := "{W}"; svg_uri := Some "w.svg" |};
              {| symbol := "{G}"; svg_uri := Some "g.svg" |} ];
     icon_b64_of := λ uri, Some uri |}.

(** ** The command line *)




(** * Properties *)

(** ** Arithmetic of chunks *)

Lemma ceil_div_eq (n d : Z) : 0 < d → ceil_div n d = (n + d - 1) / d.
Proof.
  intros Hd. unfold ceil_div, Qceiling.
  destruct d as [|p|p]; try lia.
  cbn. rewrite Z.mul_1_r, Pos.mul_1_l.
  apply Z.div_unique with (r := (Z.pos p - 1 - (- n) mod Z.pos p)).
  - pose proof (Z.mod_pos_bound (- n) (Z.pos p)). lia.
  - pose proof (Z.div_mod (- n) (Z.pos p)). lia.
Qed.

Lemma ceil_div_step (n d : Z) : 0 < d → d ≤ n → ceil_div n d = 1 + ceil_div (n - d) d.
Proof.
  intros Hd Hn. rewrite !ceil_div_eq by done.
  replace (n + d - 1) with ((n - d + d - 1) + 1 * d) by lia.
  rewrite Z.div_add by lia. lia.
Qed.

Lemma ceil_div_small (n d : Z) : 0 < n → n ≤ d → ceil_div n d = 1.
Proof.
  intros Hn Hd. rewrite ceil_div_eq by lia.
  symmetry. apply Z.div_unique with (r := n - 1); lia.
Qed.

Lemma ceil_div_0 (d : Z) : 0 < d → ceil_div 0 d = 0.
Proof. intros Hd. rewrite ceil_div_eq by lia. apply Z.div_small. lia. Qed.

(** The ceiling is the quotient, plus one when the division leaves a
    remainder. *)
Lemma ceil_div_cases (n d : Z) :
  0 < d →
  (n mod d = 0 ∧ ceil_div n d = n / d)
  ∨ (0 < n mod d ∧ ceil_div n d = n / d + 1).
Proof.
  intros Hd. rewrite ceil_div_eq by done.
  pose proof (Z.mod_pos_bound n d Hd) as Hr.
  pose proof (Z.div_mod n d) as Hn.
  destruct (decide (n mod d = 0)) as [H0|Hne]; [left|right]; (split; [lia|]);
    symmetry.
  - apply Z.div_unique with (r := d - 1); lia.
  - apply Z.div_unique with (r := n mod d - 1); lia.
Qed.

(** ** The page loops *)

Section PageFacts.
Context {A : Type}.
Implicit Types (exps labels : list A) (per_page : Z).

(** The inner loop moves labels to [exps] until [exps] is full. *)
Lemma fill_page_take_drop per_page exps labels :
  let k := Z.to_nat (per_page - Z.of_nat (length exps)) in
  fill_page per_page exps labels = (exps ++ take k labels, drop k labels).
Proof.
  revert exps. induction labels as [|l rest IH]; intros exps k; subst k.
  - cbn. by rewrite take_nil, drop_nil, app_nil_r.
  - cbn [fill_page]. destruct (Z.ltb_spec (Z.of_nat (length exps)) per_page) as [Hlt|Hge].
    + rewrite IH, length_app. cbn [length].
      replace (Z.to_nat (per_page - Z.of_nat (length exps)))
        with (S (Z.to_nat (per_page - Z.of_nat (length exps + 1)))) by lia.
      cbn. by rewrite <- app_assoc.
    + replace (Z.to_nat (per_page - Z.of_nat (length exps))) with 0%nat by lia.
      cbn. by rewrite app_nil_r.
Qed.

Context {P : Type} (render : Z → list A → P).

(** With a positive page capacity and one unit of fuel per label the
    outer loop ends, and page number [i] (counting from the first) is
    rendered from the [i]-th run of [per_page] labels. *)
Lemma page_loop_chunks fuel per_page first labels :
  0 < per_page →
  (length labels ≤ fuel)%nat →
  ∃ pages,
    page_loop fuel per_page render first labels = Some pages
    ∧ Z.of_nat (length pages) = ceil_div (Z.of_nat (length labels)) per_page
    ∧ ∀ i : nat, (i < length pages)%nat →
        pages !! i
        = Some (render (first + Z.of_nat i)
                  (take (Z.to_nat per_page)
                     (drop (i * Z.to_nat per_page) labels))).
Proof.
  intros Hpp. revert first labels.
  induction fuel as [|fuel IH]; intros first labels Hfuel.
  - destruct labels; [|cbn in Hfuel; lia].
    exists []. cbn. split_and!; [done|by rewrite ceil_div_0|intros; lia].
  - destruct labels as [|l rest].
    { exists []. cbn. split_and!; [done|by rewrite ceil_div_0|intros; lia]. }
    cbn [page_loop]. rewrite fill_page_take_drop. cbn [length app].
    rewrite Z.sub_0_r.
    set (n := Z.to_nat per_page).
    assert (Hn : (1 ≤ n)%nat) by lia.
    destruct (IH (first + 1) (drop n (l :: rest))) as (pages & Hrun & Hlen & Hnth).
    { rewrite length_drop. cbn [length] in *. lia. }
    rewrite Hrun. cbn.
    eexists. split; [done|]. split.
    + cbn [length]. rewrite Nat2Z.inj_succ, Hlen, length_drop.
      destruct (decide (n ≤ length (l :: rest))%nat) as [Hle|Hgt].
      * rewrite (ceil_div_step (Z.of_nat (length (l :: rest)))) by lia.
        replace (Z.of_nat (length (l :: rest) - n))
          with (Z.of_nat (length (l :: rest)) - per_page) by lia.
        lia.
      * replace (length (l :: rest) - n)%nat with 0%nat by lia.
        rewrite ceil_div_0 by done.
        rewrite ceil_div_small; cbn [length] in *; lia.
    + intros [|i] Hi.
      * cbn. by rewrite Z.add_0_r.
      * cbn [lookup list_lookup]. cbn [length] in Hi.
        rewrite Hnth by lia. rewrite drop_drop.
        replace (first + 1 + Z.of_nat i) with (first + Z.of_nat (S i)) by lia.
        by replace (n + i * n)%nat with (S i * n)%nat by lia.
Qed.

(** Whatever the capacity, the pages written hold the labels of the run,
    each once, in the order of the run. *)
Lemma page_loop_concat (proj : P → list A) fuel per_page first labels pages :
  (∀ k exps, proj (render k exps) = exps) →
  page_loop fuel per_page render first labels = Some pages →
  concat (proj <$> pages) = labels.
Proof.
  intros Hproj. revert first labels pages.
  induction fuel as [|fuel IH]; intros first labels pages Hrun.
  - destruct labels; cbn in Hrun; by simplify_eq.
  - destruct labels as [|l rest]; [cbn in Hrun; by simplify_eq|].
    cbn [page_loop] in Hrun. rewrite fill_page_take_drop in Hrun.
    cbn [length app] in Hrun.
    destruct (page_loop fuel _ _ _ _) as [pages'|] eqn:Hrest; [|done].
    cbn in Hrun. simplify_eq. cbn [fmap list_fmap concat].
    rewrite Hproj. fold (fmap (M := list) proj pages').
    rewrite (IH _ _ _ Hrest). apply take_drop.
Qed.
End PageFacts.

(** ** Cells of the uniform grid *)

(** Within one page a cell determines the index: the page, the column and
    the row are the three digits of [i] in the mixed base [(C, R)]. *)
Lemma grid_cell_inj (R C i j : Z) :
  0 < R → 0 < C →
  i / (R * C) = j / (R * C) →
  (i / R) mod C = (j / R) mod C →
  i mod R = j mod R →
  i = j.
Proof.
  intros HR HC Hpage Hcol Hrow.
  rewrite <- !Z.div_div in Hpage by lia.
  pose proof (Z.div_mod i R). pose proof (Z.div_mod j R).
  pose proof (Z.div_mod (i / R) C). pose proof (Z.div_mod (j / R) C).
  assert (i / R = j / R) by (rewrite Hpage, Hcol in *; lia).
  lia.
Qed.

(** The position [k] on page [p] is the index [p * n + k] of the run. *)
Lemma chunk_lookup {A : Type} (n p k : nat) (l : list A) (a : A) :
  take n (drop (p * n) l) !! k = Some a →
  (k < n)%nat ∧ l !! (p * n + k)%nat = Some a.
Proof.
  intros H. apply lookup_take_Some in H as [H Hk].
  by rewrite lookup_drop in H.
Qed.

Lemma chunk_index_page (n : Z) (p k : nat) :
  0 < n → (k < Z.to_nat n)%nat →
  Z.of_nat (p * Z.to_nat n + k) / n = Z.of_nat p.
Proof.
  intros Hn Hk. symmetry.
  apply Z.div_unique with (r := Z.of_nat k); lia.
Qed.

(** ** Uniform mode *)

Lemma layout_labels_lookup {A : Type} (self : LabelGenerator)
    (raw_items : list A) (i : nat) (it : A) :
  raw_items !! i = Some it →
  layout_labels self raw_items !! i
  = Some {| item := it;
            x := (inject_Z START_X
                  + inject_Z ((Z.of_nat i / ROWS) mod COLS) * delta_x self)%Q;
            y := (inject_Z START_Y
                  + inject_Z (Z.of_nat i mod ROWS) * delta_y self)%Q;
            label_width := None; page_index := None |}.
Proof.
  intros Hi. unfold layout_labels. by rewrite list_lookup_imap, Hi.
Qed.

Lemma layout_labels_length {A : Type} (self : LabelGenerator) (raw_items : list A) :
  length (layout_labels self raw_items) = length raw_items.
Proof. apply length_imap. Qed.

Lemma layout_labels_items {A : Type} (self : LabelGenerator) (raw_items : list A) :
  item <$> layout_labels self raw_items = raw_items.
Proof.
  apply list_eq. intros i. unfold layout_labels.
  rewrite list_lookup_fmap, list_lookup_imap.
  by destruct (raw_items !! i).
Qed.

(** The pages written by the loop of [generate_labels], as runs of the
    laid-out list. *)
Lemma write_uniform_pages_chunks (self : LabelGenerator)
    (laid : list (PositionedLabel RawLabel)) :
  ∃ pages,
    write_uniform_pages self laid = Some pages
    ∧ Z.of_nat (length pages) = ceil_div (Z.of_nat (length laid)) (ROWS * COLS)
    ∧ ∀ (p : nat) pg, pages !! p = Some pg →
        page pg = 1 + Z.of_nat p
        ∧ labels pg
          = take (Z.to_nat (ROWS * COLS)) (drop (p * Z.to_nat (ROWS * COLS)) laid).
Proof.
  unfold write_uniform_pages.
  destruct (page_loop_chunks (uniform_page self) (length laid) (ROWS * COLS) 1 laid)
    as (pages & Hrun & Hlen & Hnth); [done|done|].
  exists pages. split; [exact Hrun|]. split; [exact Hlen|].
  intros p pg Hp.
  rewrite (Hnth p) in Hp by (by eapply lookup_lt_Some).
  by injection Hp as <-.
Qed.

(** Along one axis, equal coordinates mean equal cell numbers, as long as
    the cells have an extent. *)
Lemma offset_inj (start c1 c2 : Z) (delta : Q) :
  ¬ (delta == 0)%Q →
  (inject_Z start + inject_Z c1 * delta == inject_Z start + inject_Z c2 * delta)%Q →
  c1 = c2.
Proof.
  intros Hdelta Heq. apply Qplus_inj_l in Heq.
  apply (proj1 (Qmult_inj_r _ _ _ Hdelta)) in Heq.
  exact (proj1 (inject_Z_injective c1 c2) Heq).
Qed.

(** C1. In uniform mode the label laid out at zero-based index [i] keeps
    its item and is placed at column [(i div ROWS) mod COLS] and row
    [i mod ROWS], that is at [x = START_X + col * delta_x] and
    [y = START_Y + row * delta_y]; two labels at different positions of one
    written page come from indices of the run that fall on that page and
    differ in their column or in their row, so that, unless a delta is
    zero, the two labels do not have the same [x] and the same [y]; and a
    run of 47 items is written as one page of 47 labels whose last one
    (index 46) is at column 3, row 1. *)
Theorem uniform_layout_cells (self : LabelGenerator) (api : Scryfall)
    (sets : option (list string)) :
  let col (i : nat) := (Z.of_nat i / ROWS) mod COLS in
  let row (i : nat) := Z.of_nat i mod ROWS in
  let cell (g : LabelGenerator) (i : nat) (it : RawLabel) :=
    {| item := it;
       x := (inject_Z START_X + inject_Z (col i) * delta_x g)%Q;
       y := (inject_Z START_Y + inject_Z (row i) * delta_y g)%Q;
       label_width := None; page_index := None |} in
  let self' := narrow self sets in
  let raw_items := uniform_raw_items self' api in
  let laid := layout_labels self' raw_items in
  (∀ (g : LabelGenerator) (items : list RawLabel) (i : nat) (it : RawLabel),
     items !! i = Some it → layout_labels g items !! i = Some (cell g i it))
  ∧ (∃ pages,
       written (generate_labels self api sets) = Some pages
       ∧ ∀ (p k1 k2 : nat) pg l1 l2,
           pages !! p = Some pg →
           labels pg !! k1 = Some l1 → labels pg !! k2 = Some l2 → k1 ≠ k2 →
           ∃ i1 i2 : nat,
             laid !! i1 = Some l1 ∧ laid !! i2 = Some l2
             ∧ Z.of_nat i1 / (ROWS * COLS) = Z.of_nat p
             ∧ Z.of_nat i2 / (ROWS * COLS) = Z.of_nat p
             ∧ (col i1 ≠ col i2 ∨ row i1 ≠ row i2)
             ∧ (¬ (delta_x self' == 0)%Q → ¬ (delta_y self' == 0)%Q →
                ¬ ((x l1 == x l2)%Q ∧ (y l1 == y l2)%Q)))
  ∧ (length raw_items = 47%nat →
     col 46%nat = 3 ∧ row 46%nat = 1
     ∧ ∃ pg it,
         written (generate_labels self api sets) = Some [pg]
         ∧ labels pg = laid ∧ length (labels pg) = 47%nat
         ∧ raw_items !! 46%nat = Some it
         ∧ labels pg !! 46%nat
           = Some {| item := it;
                     x := (inject_Z START_X + inject_Z 3 * delta_x self')%Q;
                     y := (inject_Z START_Y + inject_Z 1 * delta_y self')%Q;
                     label_width := None; page_index := None |}).
Proof.
  intros col row cell self' raw_items laid.
  destruct (write_uniform_pages_chunks self' laid) as (pages & Hrun & Hlen & Hpages).
  split_and!.
  - intros g items i it Hi. by apply layout_labels_lookup.
  - exists pages. split; [exact Hrun|].
    intros p k1 k2 pg l1 l2 Hp H1 H2 Hne.
    destruct (Hpages p pg Hp) as [_ Hlabels]. rewrite Hlabels in H1, H2.
    apply chunk_lookup in H1 as [Hk1 H1]. apply chunk_lookup in H2 as [Hk2 H2].
    set (i1 := (p * Z.to_nat (ROWS * COLS) + k1)%nat) in *.
    set (i2 := (p * Z.to_nat (ROWS * COLS) + k2)%nat) in *.
    assert (col i1 ≠ col i2 ∨ row i1 ≠ row i2) as Hcell.
    { destruct (decide (col i1 = col i2)) as [Hcol|]; [|by left].
      destruct (decide (row i1 = row i2)) as [Hrow|]; [|by right].
      exfalso. apply Hne.
      assert (Z.of_nat i1 = Z.of_nat i2) as Heq; [|subst i1 i2; lia].
      apply (grid_cell_inj ROWS COLS); [done|done| |exact Hcol|exact Hrow].
      subst i1 i2. by rewrite !chunk_index_page. }
    exists i1, i2. split_and!; [exact H1|exact H2| | |exact Hcell|].
    + by apply chunk_index_page.
    + by apply chunk_index_page.
    + intros Hdx Hdy [Hx Hy].
      destruct (lookup_lt_is_Some_2 raw_items i1) as [it1 Hit1].
      { apply lookup_lt_Some in H1. subst laid.
        by rewrite layout_labels_length in H1. }
      destruct (lookup_lt_is_Some_2 raw_items i2) as [it2 Hit2].
      { apply lookup_lt_Some in H2. subst laid.
        by rewrite layout_labels_length in H2. }
      subst laid.
      rewrite (layout_labels_lookup _ _ _ _ Hit1) in H1.
      rewrite (layout_labels_lookup _ _ _ _ Hit2) in H2.
      simplify_eq. cbn [x y] in Hx, Hy.
      apply offset_inj in Hx; [|exact Hdx]. apply offset_inj in Hy; [|exact Hdy].
      by destruct Hcell.
  - intros H47.
    split; [done|]. split; [done|].
    assert (length laid = 47%nat) as Hlaid
      by (subst laid; by rewrite layout_labels_length).
    rewrite Hlaid in Hlen.
    change (ceil_div (Z.of_nat 47) (ROWS * COLS)) with 1 in Hlen.
    destruct pages as [|pg [|pg' pages]]; [cbn in Hlen; lia| |cbn in Hlen; lia].
    destruct (Hpages 0%nat pg eq_refl) as [_ Hlabels].
    cbn [Nat.mul] in Hlabels.
    rewrite drop_0, take_ge in Hlabels by (rewrite Hlaid; unfold ROWS, COLS; lia).
    destruct (lookup_lt_is_Some_2 raw_items 46) as [it Hit]; [lia|].
    exists pg, it. split_and!; [exact Hrun|exact Hlabels|by rewrite Hlabels|exact Hit|].
    rewrite Hlabels. subst laid.
    by rewrite (layout_labels_lookup _ _ _ _ Hit).
Qed.

(** The size of the [p]-th of the [ceil (len / n)] runs of [n] labels. *)
Lemma chunk_length {A : Type} (n : Z) (p pages : nat) (l : list A) :
  0 < n →
  Z.of_nat pages = ceil_div (Z.of_nat (length l)) n →
  (p < pages)%nat →
  Z.of_nat (length (take (Z.to_nat n) (drop (p * Z.to_nat n) l)))
  = if decide (S p = pages)
    then (if decide (Z.of_nat (length l) mod n = 0) then n
          else Z.of_nat (length l) mod n)
    else n.
Proof.
  intros Hn Hpages Hp.
  rewrite length_take, length_drop.
  set (len := length l) in *.
  pose proof (Z.mod_pos_bound (Z.of_nat len) n Hn) as Hr.
  pose proof (Z.div_mod (Z.of_nat len) n) as Hlen.
  assert (0 ≤ Z.of_nat len / n) as Hq by (apply Z.div_pos; lia).
  assert (Z.of_nat (p * Z.to_nat n) = Z.of_nat p * n) as Hpn by lia.
  destruct (ceil_div_cases (Z.of_nat len) n Hn) as [[H0 Hc]|[Hpos Hc]];
    rewrite Hc in Hpages; repeat case_decide; nia.
Qed.

(** C2. In uniform mode the page loop ends for every run of [N] items; it
    writes [ceil (N / (ROWS * COLS))] pages, numbered from 1, the page of
    rank [p] holding the [p]-th run of [ROWS * COLS] consecutive labels, so
    that the pages read in order give back the laid-out labels and their
    items in input order; every page but the last holds [ROWS * COLS]
    labels and the last holds [N mod (ROWS * COLS)], or [ROWS * COLS] when
    that remainder is 0; with no item no page is written.  This loop is
    the one [generate_labels] runs on the items it has fetched. *)
Theorem uniform_pagination (self : LabelGenerator) (raw_items : list RawLabel) :
  let per_page := ROWS * COLS in
  let N := Z.of_nat (length raw_items) in
  let laid := layout_labels self raw_items in
  (∀ api sets,
     let self' := narrow self sets in
     written (generate_labels self api sets)
     = write_uniform_pages self'
         (layout_labels self' (uniform_raw_items self' api)))
  ∧ ∃ pages,
      write_uniform_pages self laid = Some pages
      ∧ Z.of_nat (length pages) = ceil_div N per_page
      ∧ concat (labels <$> pages) = laid
      ∧ item <$> concat (labels <$> pages) = raw_items
      ∧ (∀ (p : nat) pg, pages !! p = Some pg →
           page pg = Z.of_nat p + 1
           ∧ labels pg
             = take (Z.to_nat per_page) (drop (p * Z.to_nat per_page) laid)
           ∧ Z.of_nat (length (labels pg))
             = if decide (S p = length pages)
               then (if decide (N mod per_page = 0) then per_page
                     else N mod per_page)
               else per_page)
      ∧ (N = 0 → pages = []).
Proof.
  intros per_page N laid. split; [done|].
  destruct (write_uniform_pages_chunks self laid) as (pages & Hrun & Hlen & Hpages).
  assert (length laid = length raw_items) as Hlaid by apply layout_labels_length.
  rewrite Hlaid in Hlen. fold N per_page in Hlen.
  exists pages. split_and!; [exact Hrun|exact Hlen| | | |].
  - by apply (page_loop_concat (uniform_page self) labels) in Hrun.
  - apply (page_loop_concat (uniform_page self) labels) in Hrun; [|done].
    rewrite Hrun. apply layout_labels_items.
  - intros p pg Hp. destruct (Hpages p pg Hp) as [Hnum Hlabels].
    split_and!; [lia|exact Hlabels|].
    rewrite Hlabels. subst N. rewrite <- Hlaid.
    apply chunk_length; [done|by rewrite Hlaid|by eapply lookup_lt_Some].
  - intros HN. rewrite HN in Hlen.
    change (ceil_div 0 per_page) with 0 in Hlen.
    destruct pages; [done|cbn in Hlen; lia].
Qed.

(** ** Wide mode *)

(** Floor division of integers is the floor of their rational quotient. *)
Lemma floor_div_eq (a b : Z) : 0 < b → a / b = Qfloor (true_div a b).
Proof.
  intros Hb. destruct b as [|p|p]; try lia.
  unfold true_div. cbn. by rewrite Z.mul_1_r, Pos.mul_1_l.
Qed.

(** C3. In wide mode the column count is
    [max 1 (floor ((width - 2 * margin) / (WIDE_LABEL_MM * 10)))]; it is what
    [layout_wide_labels] stores for the guides and the page loop; it is at
    least 1, and exactly 1 when the usable width is less than one cell;
    on a page 2790 wide with margin 100 the usable width is 2590 and there
    are 2 columns. *)
Theorem wide_column_count (self : LabelGenerator) :
  let cell_w := WIDE_LABEL_MM * 10 in
  let usable := width self - 2 * self_MARGIN self in
  let columns := Z.max 1 (Qfloor (true_div usable cell_w)) in
  (∀ (A : Type) (raw_items : list A),
     _wide_cols (layout_wide_labels self raw_items).1 = Some columns)
  ∧ 1 ≤ columns
  ∧ (usable < cell_w → columns = 1)
  ∧ (width self = 2790 → self_MARGIN self = 100 →
     usable = 2590 ∧ columns = 2).
Proof.
  intros cell_w usable columns.
  assert (columns = Z.max 1 (usable / cell_w)) as Hcols
    by (subst columns; by rewrite <- floor_div_eq).
  split_and!.
  - intros A raw_items. cbn. by rewrite Hcols.
  - lia.
  - intros Hsmall. rewrite Hcols.
    assert (usable / cell_w ≤ 0); [|lia].
    destruct (decide (0 ≤ usable)).
    + rewrite Z.div_small; lia.
    + assert (usable / cell_w < 0); [|lia].
      apply Z.div_lt_upper_bound; [done|lia].
  - intros Hw Hm. rewrite Hcols. subst usable cell_w.
    rewrite Hw, Hm. done.
Qed.

Lemma layout_wide_labels_lookup {A : Type} (self : LabelGenerator)
    (raw_items : list A) (i : nat) (it : A) :
  let cell_w := WIDE_LABEL_MM * 10 in
  let columns := Z.max 1 ((width self - 2 * self_MARGIN self) / cell_w) in
  raw_items !! i = Some it →
  (layout_wide_labels self raw_items).2 !! i
  = Some {| item := it;
            x := inject_Z (START_X + (Z.of_nat i mod columns) * cell_w);
            y := (inject_Z START_Y
                  + inject_Z ((Z.of_nat i / columns) mod ROWS) * delta_y self)%Q;
            label_width := Some cell_w;
            page_index := Some (Z.of_nat i / (columns * ROWS)) |}.
Proof.
  intros cell_w columns Hi. cbn [layout_wide_labels snd].
  by rewrite list_lookup_imap, Hi.
Qed.

Lemma layout_wide_labels_length {A : Type} (self : LabelGenerator)
    (raw_items : list A) :
  length (layout_wide_labels self raw_items).2 = length raw_items.
Proof. apply length_imap. Qed.

(** An index below [len] falls on one of the [ceil (len / n)] pages. *)
Lemma index_page_lt (n len i : Z) :
  0 < n → 0 ≤ i < len → i / n < ceil_div len n.
Proof.
  intros Hn Hi. rewrite ceil_div_eq by done.
  apply Z.div_lt_upper_bound; [done|].
  pose proof (Z.div_mod (len + n - 1) n).
  pose proof (Z.mod_pos_bound (len + n - 1) n Hn).
  nia.
Qed.

(** C4. In wide mode, with [columns] the derived column count, the label
    laid out at index [i] keeps its item and has [col = i mod columns],
    [row = (i div columns) mod ROWS], [page_index = i div (columns * ROWS)],
    [x = START_X + col * cell_width], [y = START_Y + row * delta_y] with
    the row spacing of uniform mode, and [width = cell_width]; the page
    loop of [generate_color_set_mode] ends and cuts the list into runs of
    [columns * ROWS] labels, so that the label of index [i] is written on
    the page of rank [page_index], at position [i mod (columns * ROWS)],
    and every label of the page of rank [p] carries [page_index = p]. *)
Theorem wide_layout_pages (self : LabelGenerator) (raw_items : list WideRawLabel) :
  let cell_w := WIDE_LABEL_MM * 10 in
  let columns := Z.max 1 ((width self - 2 * self_MARGIN self) / cell_w) in
  let per_page := columns * ROWS in
  let self' := (layout_wide_labels self raw_items).1 in
  let laid := (layout_wide_labels self raw_items).2 in
  (∀ api sets,
     let wide := layout_wide_labels (narrow self sets)
                   (color_set_raw (narrow self sets) api) in
     written (generate_color_set_mode self api sets)
     = write_wide_pages wide.1 wide.2)
  ∧ (∀ (i : nat) it, raw_items !! i = Some it →
       laid !! i
       = Some {| item := it;
                 x := inject_Z (START_X + (Z.of_nat i mod columns) * cell_w);
                 y := (inject_Z START_Y
                       + inject_Z ((Z.of_nat i / columns) mod ROWS)
                         * delta_y self)%Q;
                 label_width := Some cell_w;
                 page_index := Some (Z.of_nat i / per_page) |})
  ∧ ∃ pages,
      write_wide_pages self' laid = Some pages
      ∧ concat (labels <$> pages) = laid
      ∧ (∀ (p : nat) pg, pages !! p = Some pg →
           page pg = Z.of_nat p + 1
           ∧ labels pg
             = take (Z.to_nat per_page) (drop (p * Z.to_nat per_page) laid)
           ∧ ∀ l, l ∈ labels pg → page_index l = Some (Z.of_nat p))
      ∧ (∀ (i : nat) l, laid !! i = Some l →
           ∃ pg, page_index l = Some (Z.of_nat i / per_page)
                 ∧ pages !! Z.to_nat (Z.of_nat i / per_page) = Some pg
                 ∧ labels pg !! Z.to_nat (Z.of_nat i mod per_page) = Some l).
Proof.
  intros cell_w columns per_page self' laid.
  assert (0 < per_page) as Hpp by (subst per_page columns; unfold ROWS; lia).
  assert (∀ (i : nat) l, laid !! i = Some l →
            page_index l = Some (Z.of_nat i / per_page)) as Hidx.
  { intros i l Hl.
    destruct (lookup_lt_is_Some_2 raw_items i) as [it Hit].
    { apply lookup_lt_Some in Hl. subst laid.
      by rewrite layout_wide_labels_length in Hl. }
    subst laid. rewrite (layout_wide_labels_lookup _ _ _ _ Hit) in Hl.
    by simplify_eq. }
  split_and!.
  - intros api sets. unfold generate_color_set_mode.
    by destruct (layout_wide_labels _ _).
  - intros i it Hi. by apply layout_wide_labels_lookup.
  - unfold write_wide_pages.
    change (default COLS (_wide_cols self') * ROWS) with per_page.
    destruct (page_loop_chunks (wide_page self') (length laid) per_page 1 laid)
      as (pages & Hrun & Hlen & Hnth); [done|done|].
    exists pages. split_and!; [exact Hrun| | |].
    + by apply (page_loop_concat (wide_page self') labels) in Hrun.
    + intros p pg Hp.
      rewrite (Hnth p) in Hp by (by eapply lookup_lt_Some).
      injection Hp as <-. cbn [page labels wide_page].
      split_and!; [lia|done|].
      intros l [k Hk]%list_elem_of_lookup_1.
      apply chunk_lookup in Hk as [Hk Hl].
      rewrite (Hidx _ _ Hl). f_equal. by apply chunk_index_page.
    + intros i l Hl. pose proof (lookup_lt_Some _ _ _ Hl) as Hi.
      pose proof (Z.div_mod (Z.of_nat i) per_page) as Hdm.
      pose proof (Z.mod_pos_bound (Z.of_nat i) per_page Hpp) as Hr.
      assert (0 ≤ Z.of_nat i / per_page) as Hq by (apply Z.div_pos; lia).
      assert (Z.of_nat i / per_page < Z.of_nat (length pages)) as Hp.
      { rewrite Hlen. apply index_page_lt; lia. }
      rewrite Hnth by lia. eexists. split_and!; [by apply Hidx|done|].
      cbn [labels wide_page].
      rewrite lookup_take_lt by lia. rewrite lookup_drop, <- Hl. f_equal. nia.
Qed.

(** ** Page bounds *)

(** What the code does guarantee.  When the deltas are the ones [__init__]
    derives, the margin leaves a non-negative usable extent, and the fixed
    origin [START_X = START_Y] is at most twice the margin in force, every
    label of either layout lies on the page; in wide mode the page must
    also hold one cell after the origin.  All of this holds for the
    instances built without [margin_mm]. *)
Lemma uniform_label_in_page {A : Type} (self : LabelGenerator)
    (raw_items : list A) (i : nat) (l : PositionedLabel A) :
  delta_x self = true_div (width self - 2 * self_MARGIN self) COLS →
  delta_y self = true_div (height self - 2 * self_MARGIN self) ROWS →
  2 * self_MARGIN self ≤ width self →
  2 * self_MARGIN self ≤ height self →
  START_X ≤ 2 * self_MARGIN self →
  layout_labels self raw_items !! i = Some l →
  (0 <= x l ∧ x l + delta_x self <= inject_Z (width self)
   ∧ 0 <= y l ∧ y l + delta_y self <= inject_Z (height self))%Q.
Proof.
  intros Hdx Hdy Hw Hh Hstart Hl.
  destruct (lookup_lt_is_Some_2 raw_items i) as [it Hit].
  { apply lookup_lt_Some in Hl. by rewrite layout_labels_length in Hl. }
  rewrite (layout_labels_lookup _ _ _ _ Hit) in Hl. simplify_eq. cbn [x y].
  rewrite Hdx, Hdy.
  pose proof (Z.mod_pos_bound (Z.of_nat i / ROWS) COLS eq_refl) as Hc.
  pose proof (Z.mod_pos_bound (Z.of_nat i) ROWS eq_refl) as Hr.
  revert Hc Hr Hstart.
  generalize ((Z.of_nat i / ROWS) mod COLS) (Z.of_nat i mod ROWS).
  unfold START_X, START_Y, MARGIN, COLS, ROWS, true_div.
  unfold Qle, Qplus, Qmult, Qdiv, Qinv, inject_Z. cbn.
  intros c r Hc Hr Hstart. nia.
Qed.

Lemma wide_label_in_page {A : Type} (self : LabelGenerator)
    (raw_items : list A) (i : nat) (l : PositionedLabel A) :
  delta_y self = true_div (height self - 2 * self_MARGIN self) ROWS →
  2 * self_MARGIN self ≤ height self →
  START_X ≤ 2 * self_MARGIN self →
  START_X + WIDE_LABEL_MM * 10 ≤ width self →
  (layout_wide_labels self raw_items).2 !! i = Some l →
  (0 <= x l ∧ x l + inject_Z (WIDE_LABEL_MM * 10) <= inject_Z (width self)
   ∧ 0 <= y l ∧ y l + delta_y self <= inject_Z (height self))%Q.
Proof.
  intros Hdy Hh Hstart Hone Hl.
  destruct (lookup_lt_is_Some_2 raw_items i) as [it Hit].
  { apply lookup_lt_Some in Hl. by rewrite layout_wide_labels_length in Hl. }
  rewrite (layout_wide_labels_lookup _ _ _ _ Hit) in Hl. simplify_eq. cbn [x y].
  rewrite Hdy.
  set (usable := width self - 2 * self_MARGIN self) in *.
  set (columns := Z.max 1 (usable / (WIDE_LABEL_MM * 10))).
  assert (0 < columns) as Hcols by lia.
  pose proof (Z.mod_pos_bound (Z.of_nat i) columns Hcols) as Hc.
  pose proof (Z.mod_pos_bound (Z.of_nat i / columns) ROWS eq_refl) as Hr.
  assert (columns * (WIDE_LABEL_MM * 10) ≤ Z.max (WIDE_LABEL_MM * 10) usable) as Hfit.
  { subst columns.
    pose proof (Z.div_mod usable (WIDE_LABEL_MM * 10)).
    pose proof (Z.mod_pos_bound usable (WIDE_LABEL_MM * 10) eq_refl).
    unfold WIDE_LABEL_MM in *. lia. }
  revert Hc Hr Hstart Hone Hfit. subst usable.
  generalize (Z.of_nat i mod columns) ((Z.of_nat i / columns) mod ROWS) columns.
  unfold START_X, START_Y, MARGIN, ROWS, WIDE_LABEL_MM, true_div.
  unfold Qle, Qplus, Qmult, Qdiv, Qinv, inject_Z. cbn.
  intros c r cols Hc Hr Hstart Hone Hfit. nia.
Qed.

(** X21. For every instance built without [margin_mm], on either paper
    size and in either orientation, every label of uniform mode and every
    label of wide mode lies on the page with its whole cell. *)
Lemma default_margin_labels_in_page (paper_size output_dir : string)
    (generate_pdfs include_color_labels portrait : bool) (self : LabelGenerator) :
  __init__ paper_size output_dir generate_pdfs include_color_labels portrait None
    = Some self →
  ∀ (A : Type) (raw_items : list A) (i : nat) (l : PositionedLabel A),
    (layout_labels self raw_items !! i = Some l →
     (0 <= x l ∧ x l + delta_x self <= inject_Z (width self)
      ∧ 0 <= y l ∧ y l + delta_y self <= inject_Z (height self))%Q)
    ∧ ((layout_wide_labels self raw_items).2 !! i = Some l →
       (0 <= x l ∧ x l + inject_Z (WIDE_LABEL_MM * 10) <= inject_Z (width self)
        ∧ 0 <= y l ∧ y l + delta_y self <= inject_Z (height self))%Q).
Proof.
  unfold __init__. intros Hinit.
  destruct (PAPER_SIZES !! paper_size) as [paper|] eqn:Hpaper; [|done].
  assert (paper = {| paper_width := 2790; paper_height := 2160 |}
          ∨ paper = {| paper_width := 2970; paper_height := 2100 |}) as Hcases.
  { unfold PAPER_SIZES in Hpaper.
    rewrite !lookup_insert in Hpaper.
    repeat case_decide; simplify_eq; auto. }
  cbn in Hinit. simplify_eq.
  intros A raw_items i l. split; intros Hl.
  - eapply uniform_label_in_page; [..|exact Hl]; try done;
      destruct Hcases as [-> | ->], portrait; cbn; unfold MARGIN; lia.
  - eapply wide_label_in_page; [..|exact Hl]; try done;
      destruct Hcases as [-> | ->], portrait; cbn;
      unfold START_X, MARGIN, WIDE_LABEL_MM; lia.
Qed.

(** C5 (fails on the code). A generator built for Letter paper with
    [margin_mm = 0] has a valid geometry, yet of the 46 labels it lays out
    the one at index 14 (row 14) ends at [y + delta_y = 2260], below the
    page edge at 2160, and the one at index 45 (column 3) ends at
    [x + delta_x = 2890], right of the page edge at 2790: the labels start
    at the class-level [START_X = START_Y = 100] while the deltas are
    derived from the overridden margin. *)
Theorem label_past_page_edge_zero_margin :
  ∃ self pg l14 l45,
    __init__ "letter" "output" true false false (Some 0%Q) = Some self
    ∧ 0 ≤ self_MARGIN self ∧ 2 * self_MARGIN self < width self
    ∧ 2 * self_MARGIN self < height self
    ∧ written (generate_labels self (sample_api 46) None) = Some [pg]
    ∧ labels pg !! 14%nat = Some l14
    ∧ (y l14 + delta_y self == 2260)%Q
    ∧ (inject_Z (height self) < y l14 + delta_y self)%Q
    ∧ labels pg !! 45%nat = Some l45
    ∧ (x l45 + delta_x self == 2890)%Q
    ∧ (inject_Z (width self) < x l45 + delta_x self)%Q.
Proof.
  eexists _, _, _, _. split; [vm_compute; reflexivity|].
  split_and!; try (vm_compute; reflexivity); vm_compute; congruence.
Qed.

(** ** Orientation *)





(** ** Cutting guides *)

(** Every guide the wide loop emits is the top or the bottom tick of an
    index of its range whose abscissa is within the right margin. *)
Lemma wide_guides_loop_within (self : LabelGenerator) (cell_w : Z)
    (indices : list Z) (g : Guide) :
  let m := self_MARGIN self in
  g ∈ wide_guides_loop self cell_w indices →
  ∃ i, i ∈ indices
       ∧ m + i * cell_w ≤ width self - m
       ∧ (g = {| x1 := inject_Z (m + i * cell_w); x2 := inject_Z (m + i * cell_w);
                 y1 := half m; y2 := four_fifths m |}
          ∨ g = {| x1 := inject_Z (m + i * cell_w); x2 := inject_Z (m + i * cell_w);
                   y1 := (inject_Z (height self) - half m)%Q;
                   y2 := (inject_Z (height self) - four_fifths m)%Q |}).
Proof.
  intros m. induction indices as [|i indices IH]; cbn [wide_guides_loop]; intros Hg.
  - by apply elem_of_nil in Hg.
  - fold m in Hg.
    destruct (Z.gtb_spec (m + i * cell_w) (width self - m)) as [Hgt|Hle].
    { by apply elem_of_nil in Hg. }
    apply elem_of_cons in Hg as [->|Hg]; [|apply elem_of_cons in Hg as [->|Hg]].
    + exists i. split_and!; [left|lia|by left].
    + exists i. split_and!; [left|lia|by right].
    + destruct (IH Hg) as (j & Hj & Hrest). exists j. split; [by right|done].
Qed.

(** Once an abscissa is past the right margin, the loop has ended: nothing
    is emitted for that index nor for any later one. *)
Lemma wide_guides_loop_break (self : LabelGenerator) (cell_w : Z)
    (before after : list Z) (i : Z) :
  self_MARGIN self + i * cell_w > width self - self_MARGIN self →
  wide_guides_loop self cell_w (before ++ i :: after)
  = wide_guides_loop self cell_w before.
Proof.
  intros Hgt. induction before as [|j before IH]; cbn [wide_guides_loop app].
  - destruct (Z.gtb_spec (self_MARGIN self + i * cell_w)
                (width self - self_MARGIN self)); [done|lia].
  - destruct (_ >? _); [done|]. by rewrite IH.
Qed.

(** C7. In uniform mode [create_vertical_cutting_guides] returns
    [2 * (COLS + 1)] guides: for each [i] from 0 to [COLS], a top tick
    followed by a bottom tick at [x = MARGIN + i * delta_x].  In wide mode
    every guide returned by [_wide_vertical_guides] is at an abscissa
    [MARGIN + i * cell_width], [0 <= i <= _wide_cols], that does not exceed
    [width - MARGIN]; and from the first index whose abscissa exceeds it,
    nothing more is emitted. *)
Theorem vertical_cutting_guides (self : LabelGenerator) :
  let m := self_MARGIN self in
  let cell_w := WIDE_LABEL_MM * 10 in
  let top (xx : Q) := {| x1 := xx; x2 := xx; y1 := half m; y2 := four_fifths m |} in
  let bottom (xx : Q) :=
    {| x1 := xx; x2 := xx;
       y1 := (inject_Z (height self) - half m)%Q;
       y2 := (inject_Z (height self) - four_fifths m)%Q |} in
  (Z.of_nat (length (create_vertical_cutting_guides self)) = 2 * (COLS + 1)
   ∧ ∀ i : nat, Z.of_nat i ≤ COLS →
       let xx := (inject_Z m + inject_Z (Z.of_nat i) * delta_x self)%Q in
       create_vertical_cutting_guides self !! (2 * i)%nat = Some (top xx)
       ∧ create_vertical_cutting_guides self !! (2 * i + 1)%nat = Some (bottom xx))
  ∧ (∀ g, g ∈ _wide_vertical_guides self →
       (x1 g <= inject_Z (width self - m))%Q
       ∧ (x2 g <= inject_Z (width self - m))%Q
       ∧ ∃ wide_cols i,
           _wide_cols self = Some wide_cols ∧ 0 ≤ i ≤ wide_cols
           ∧ m + i * cell_w ≤ width self - m
           ∧ (g = top (inject_Z (m + i * cell_w))
              ∨ g = bottom (inject_Z (m + i * cell_w))))
  ∧ (∀ wide_cols i g,
       _wide_cols self = Some wide_cols → 0 ≤ i ≤ wide_cols →
       m + i * cell_w > width self - m →
       g ∈ _wide_vertical_guides self →
       ∃ j, 0 ≤ j < i ∧ x1 g = inject_Z (m + j * cell_w)).
Proof.
  intros m cell_w top bottom. split; [split|split].
  - done.
  - intros i Hi. unfold COLS in Hi.
    do 5 (destruct i as [|i]; [done|]). lia.
  - intros g Hg. unfold _wide_vertical_guides in Hg.
    destruct (_wide_cols self) as [wide_cols|] eqn:Hwc; [|by apply elem_of_nil in Hg].
    apply wide_guides_loop_within in Hg as (i & Hi & Hle & Hg).
    apply elem_of_seqZ in Hi. fold m cell_w in Hle, Hg.
    assert (x1 g = inject_Z (m + i * cell_w) ∧ x2 g = inject_Z (m + i * cell_w))
      as [-> ->] by (by destruct Hg as [-> | ->]).
    split_and!; [by rewrite <- Zle_Qle|by rewrite <- Zle_Qle|].
    exists wide_cols, i. split_and!; [done|lia|lia|exact Hle|exact Hg].
  - intros wide_cols i g Hwc Hi Hgt Hg. unfold _wide_vertical_guides in Hg.
    rewrite Hwc in Hg. unfold range in Hg.
    replace (wide_cols + 1) with (i + (1 + (wide_cols - i))) in Hg by lia.
    rewrite seqZ_app in Hg by lia.
    rewrite (seqZ_cons (0 + i)) in Hg by lia.
    rewrite wide_guides_loop_break in Hg by (rewrite Z.add_0_l; exact Hgt).
    apply wide_guides_loop_within in Hg as (j & Hj & _ & Hg).
    apply elem_of_seqZ in Hj. exists j. split; [lia|].
    by destruct Hg as [-> | ->].
Qed.

(** ** The rename table *)

(** No replacement name is itself renamed to something else. *)
Lemma RENAME_SETS_values_fixed (k v : string) :
  RENAME_SETS !! k = Some v → rename v = v.
Proof.
  revert k v. change (map_Forall (λ _ v, rename v = v) RENAME_SETS).
  apply (bool_decide_unpack _). vm_compute. exact I.
Qed.

(** C8. The name substitution is idempotent: renaming a renamed name
    changes nothing. *)
Theorem rename_idempotent (n : string) : rename (rename n) = rename n.
Proof.
  unfold rename at 2 3.
  destruct (RENAME_SETS !! n) as [v|] eqn:Hn; cbn.
  - by eapply RENAME_SETS_values_fixed.
  - unfold rename. by rewrite Hn.
Qed.

(** ** Selection *)

Lemma truthy_true {B : Type} (l : list B) : truthy l = true ↔ l ≠ [].
Proof. by destruct l. Qed.

(** The test of the loop body, clause by clause. *)
Lemma selected_true (self : LabelGenerator) (exp : SetRecord) :
  selected self exp = true
  ↔ not_ignored self exp ∧ large_enough self exp
    ∧ category_allowed self exp ∧ code_listed self exp.
Proof.
  unfold selected, not_ignored, large_enough, category_allowed, code_listed.
  case_bool_decide as Hign; [intuition congruence|].
  destruct (Z.ltb_spec (exp_card_count exp) (minimum_set_size self));
    [intuition congruence|].
  destruct (set_types self) as [|t ts] eqn:Hts;
    destruct (set_codes self) as [|c cs] eqn:Hcs;
    cbn [truthy andb]; repeat case_bool_decide; cbn [negb andb];
    intuition (congruence || lia).
Qed.

(** Appending the selected records one by one is filtering. *)
Lemma select_loop_filter (self : LabelGenerator) (data acc : list SetRecord) :
  foldl (λ acc exp, if selected self exp then acc ++ [exp] else acc) acc data
  = acc ++ filter (λ exp, selected self exp = true) data.
Proof.
  revert acc. induction data as [|exp data IH]; intros acc; cbn [foldl].
  - by rewrite filter_nil, app_nil_r.
  - rewrite IH, filter_cons. destruct (selected self exp) eqn:Hsel.
    + rewrite decide_True by done. by rewrite <- app_assoc.
    + by rewrite decide_False by done.
Qed.

(** C9. For every catalog list, [get_set_data] returns the records left
    after dropping, in this order, those whose code is ignored, those whose
    card count is below the minimum, those whose type is not allowed (no
    drop when no type is set), and those whose lowercased code is not in
    the allow-list (no drop when the list is empty), in reversed catalog
    order; and it warns about exactly the listed codes, lowercased, that
    are the code of no record of the full catalog. *)
Theorem get_set_data_selection (self : LabelGenerator) (api : Scryfall) :
  (get_set_data self api).1 = select_by_contract self (sets_data api)
  ∧ ∀ c : string,
      c ∈ (get_set_data self api).2 ↔ unmatched_codes self (sets_data api) c.
Proof.
  split.
  - unfold get_set_data, select_by_contract. cbn [fst].
    rewrite select_loop_filter, app_nil_l. f_equal.
    rewrite !list_filter_filter. apply list_filter_iff.
    intros exp. rewrite selected_true. tauto.
  - intros c. unfold get_set_data, unknown_sets, unmatched_codes. cbn [snd].
    destruct (set_codes self) as [|s ss] eqn:Hcodes; cbn [truthy].
    + rewrite fmap_nil. split; [set_solver|]. intros [H _]. by apply elem_of_nil in H.
    + rewrite elem_of_difference, !elem_of_list_to_set.
      split.
      * intros [Hin Hout]. split; [done|].
        intros exp Hexp Heq. apply Hout, list_elem_of_fmap. exists exp. by split.
      * intros [Hin Hout]. split; [done|].
        intros (exp & -> & Hexp)%list_elem_of_fmap. by apply (Hout exp).
Qed.

(** ** The filters after a call with explicit codes *)

Lemma narrow_without_sets (self : LabelGenerator) (later : option (list string)) :
  later = None ∨ later = Some [] → narrow self later = self.
Proof. by intros [-> | ->]. Qed.

(** C10. After [generate_labels] or [generate_color_set_mode] has been
    called with a non-empty list of codes, the instance has an empty ignore
    set, an empty set of allowed types, a minimum size of 0 and the
    lowercased codes as allow-list, whatever it was built with.  A later
    call of either entry point without codes ([None] or an empty list)
    leaves these four as they are, and selects with them: a record is kept
    exactly when its card count is not negative and its lowercased code is
    in the allow-list of the earlier call. *)
Theorem explicit_sets_disable_filters_for_good (self : LabelGenerator)
    (api : Scryfall) (s : string) (ss : list string) (g1 : LabelGenerator) :
  g1 = self_after (generate_labels self api (Some (s :: ss)))
  ∨ g1 = self_after (generate_color_set_mode self api (Some (s :: ss))) →
  (ignored_sets g1 = [] ∧ set_types g1 = [] ∧ minimum_set_size g1 = 0
   ∧ set_codes g1 = lower <$> (s :: ss))
  ∧ ∀ (api' : Scryfall) (later : option (list string)) (g2 : LabelGenerator),
      later = None ∨ later = Some [] →
      g2 = self_after (generate_labels g1 api' later)
      ∨ g2 = self_after (generate_color_set_mode g1 api' later) →
      (ignored_sets g2 = [] ∧ set_types g2 = [] ∧ minimum_set_size g2 = 0
       ∧ set_codes g2 = lower <$> (s :: ss))
      ∧ (uniform_raw_items (narrow g1 later) api'
         = uniform_raw_items g1 api'
         ∧ color_set_raw (narrow g1 later) api' = color_set_raw g1 api')
      ∧ (get_set_data g1 api').1
        = reverse (filter (λ exp, 0 ≤ exp_card_count exp
                                  ∧ lower (exp_code exp) ∈ (lower <$> (s :: ss)))
                          (sets_data api')).
Proof.
  intros Hg1.
  assert (ignored_sets g1 = [] ∧ set_types g1 = [] ∧ minimum_set_size g1 = 0
          ∧ set_codes g1 = lower <$> (s :: ss)) as Hfilters.
  { destruct Hg1 as [-> | ->]; [done|].
    unfold generate_color_set_mode. by destruct (layout_wide_labels _ _) eqn:E;
      injection E as <- _. }
  split; [exact Hfilters|].
  destruct Hfilters as (Hign & Hty & Hmin & Hcodes).
  intros api' later g2 Hlater Hg2.
  rewrite (narrow_without_sets g1 later Hlater).
  split_and!; [| | | |done|done|].
  1-4: destruct Hg2 as [-> | ->];
    unfold generate_labels, generate_color_set_mode;
    rewrite (narrow_without_sets g1 later Hlater); done.
  unfold get_set_data. cbn [fst].
  rewrite select_loop_filter, app_nil_l. f_equal.
  apply list_filter_iff. intros exp. rewrite selected_true.
  unfold not_ignored, large_enough, category_allowed, code_listed.
  rewrite Hign, Hty, Hmin, Hcodes.
  split.
  - intros (_ & Hsize & _ & [Hnil|Hin]); [done|]. split; [lia|done].
  - intros [Hsize Hin]. split_and!; [apply not_elem_of_nil|lia|by left|by right].
Qed.

(** * The properties at sample inputs *)

Lemma letter_landscape_init :
  __init__ DEFAULT_PAPER_SIZE "output" true false false None = Some letter_landscape.
Proof. reflexivity. Qed.

Lemma letter_narrow_init :
  __init__ "letter" "output" true false false (Some (100 # 1)) = Some letter_narrow.
Proof. reflexivity. Qed.

Lemma uniform_layout_cells_witness :
  ∃ pg l0 l1 l,
    written (generate_labels letter_landscape (sample_api 47) None) = Some [pg]
    ∧ labels pg !! 0%nat = Some l0 ∧ labels pg !! 1%nat = Some l1
    ∧ labels pg !! 46%nat = Some l
    ∧ ¬ ((x l0 == x l1)%Q ∧ (y l0 == y l1)%Q)
    ∧ (x l == 100 + 3 * (2590 # 4))%Q ∧ (y l == 100 + (1960 # 15))%Q
    ∧ layout_labels letter_landscape [sample_label] !! 0%nat
      = Some {| item := sample_label; x := 100 + 0 * (2590 # 4);
                y := 100 + 0 * (1960 # 15);
                label_width := None; page_index := None |}.
Proof.
  destruct (uniform_layout_cells letter_landscape (sample_api 47) None)
    as (Hcell & (pages & Hrun' & Hapart) & H47).
  assert (length (uniform_raw_items (narrow letter_landscape None) (sample_api 47))
          = 47%nat) as Hlen by (vm_compute; reflexivity).
  destruct (H47 Hlen) as (_ & _ & pg & it & Hrun & Hlabels & _ & _ & Hlast).
  rewrite Hrun in Hrun'. injection Hrun' as <-.
  assert (∃ l0, labels pg !! 0%nat = Some l0) as [l0 H0]
    by (rewrite Hlabels; eexists; reflexivity).
  assert (∃ l1, labels pg !! 1%nat = Some l1) as [l1 H1]
    by (rewrite Hlabels; eexists; reflexivity).
  destruct (Hapart 0%nat 0%nat 1%nat pg l0 l1 eq_refl H0 H1 ltac:(lia))
    as (i0 & i1 & _ & _ & _ & _ & _ & Hxy).
  exists pg, l0, l1. eexists.
  split; [exact Hrun|]. split; [exact H0|]. split; [exact H1|].
  split; [exact Hlast|].
  split; [apply Hxy; vm_compute; congruence|].
  split; [vm_compute; reflexivity|]. split; [vm_compute; reflexivity|].
  exact (Hcell letter_landscape [sample_label] 0%nat sample_label eq_refl).
Defined.

Lemma uniform_pagination_witness :
  ∃ first second,
    write_uniform_pages letter_landscape
      (layout_labels letter_landscape (replicate 61 sample_label))
    = Some [first; second]
    ∧ length (labels first) = 60%nat ∧ length (labels second) = 1%nat
    ∧ page second = 2.
Proof.
  destruct (uniform_pagination letter_landscape (replicate 61 sample_label))
    as (_ & pages & Hrun & Hlen & _ & _ & Hpages & _).
  change (ceil_div _ _) with 2 in Hlen.
  destruct pages as [|first [|second [|third pages]]]; try (cbn in Hlen; lia).
  exists first, second. split; [exact Hrun|].
  destruct (Hpages 0%nat first eq_refl) as (_ & _ & H0).
  destruct (Hpages 1%nat second eq_refl) as (H1 & _ & H1').
  split; [apply Nat2Z.inj; exact H0|].
  split; [apply Nat2Z.inj; exact H1'|exact H1].
Defined.

Lemma wide_column_count_witness :
  _wide_cols (layout_wide_labels letter_landscape [sample_wide_label]).1 = Some 2
  ∧ _wide_cols (layout_wide_labels letter_narrow [sample_wide_label]).1 = Some 1.
Proof.
  destruct (wide_column_count letter_landscape) as (Hstored & _ & _ & Hletter).
  destruct (Hletter eq_refl eq_refl) as [_ H2].
  destruct (wide_column_count letter_narrow) as (Hstored' & _ & Hclamp & _).
  assert (width letter_narrow - 2 * self_MARGIN letter_narrow < WIDE_LABEL_MM * 10)
    as Hsmall by reflexivity.
  split.
  - rewrite Hstored. exact (f_equal Some H2).
  - rewrite Hstored'. exact (f_equal Some (Hclamp Hsmall)).
Defined.

Lemma wide_layout_pages_witness :
  let wide := layout_wide_labels letter_landscape (replicate 31 sample_wide_label) in
  ∃ pages pg l,
    write_wide_pages wide.1 wide.2 = Some pages
    ∧ wide.2 !! 30%nat = Some l
    ∧ pages !! 1%nat = Some pg
    ∧ labels pg !! 0%nat = Some l
    ∧ page_index l = Some 1
    ∧ x l = inject_Z 100 ∧ (y l == 100)%Q.
Proof.
  intros wide.
  destruct (wide_layout_pages letter_landscape (replicate 31 sample_wide_label))
    as (_ & Hcell & pages & Hrun & _ & _ & Hidx).
  pose proof (Hcell 30%nat sample_wide_label eq_refl) as Hl.
  destruct (Hidx 30%nat _ Hl) as (pg & Hpage & Hpg & Hpos).
  exists pages, pg. eexists.
  split; [exact Hrun|]. split; [exact Hl|]. split; [exact Hpg|].
  split; [exact Hpos|]. split; [exact Hpage|]. split; reflexivity.
Defined.

Lemma vertical_cutting_guides_witness :
  let self := (layout_wide_labels letter_narrow [sample_wide_label]).1 in
  let tick := {| x1 := inject_Z 1000; x2 := inject_Z 1000;
                 y1 := half 1000; y2 := four_fifths 1000 |} in
  create_vertical_cutting_guides self !! 8%nat
  = Some {| x1 := inject_Z 1000 + inject_Z 4 * (790 # 4);
            x2 := inject_Z 1000 + inject_Z 4 * (790 # 4);
            y1 := half 1000; y2 := four_fifths 1000 |}
  ∧ _wide_vertical_guides self !! 0%nat = Some tick
  ∧ (x1 tick <= inject_Z (2790 - 1000))%Q
  ∧ ∃ j, 0 ≤ j < 1 ∧ x1 tick = inject_Z (1000 + j * (WIDE_LABEL_MM * 10)).
Proof.
  intros self tick.
  destruct (vertical_cutting_guides self) as ((_ & Hpairs) & Hwithin & Hbreak).
  assert (tick ∈ _wide_vertical_guides self) as Hin by left.
  split; [exact (proj1 (Hpairs 4%nat ltac:(unfold COLS; lia)))|].
  split; [reflexivity|].
  split; [exact (proj1 (Hwithin tick Hin))|].
  exact (Hbreak 1 1 tick eq_refl ltac:(lia) eq_refl Hin).
Defined.

Lemma get_set_data_selection_witness :
  let self := narrow letter_landscape (Some ["lea"; "MH1"; "zzzz"]) in
  (get_set_data self two_set_api).1 = [sample_set; sample_set_mh1]
  ∧ "zzzz" ∈ (get_set_data self two_set_api).2
  ∧ ¬ ("lea" ∈ (get_set_data self two_set_api).2)
  ∧ ¬ ("mh1" ∈ (get_set_data self two_set_api).2).
Proof.
  intros self.
  destruct (get_set_data_selection self two_set_api) as [Hsel Hwarn].
  split; [rewrite Hsel; reflexivity|].
  split; [|split].
  - apply Hwarn. split.
    + do 2 right. left.
    + intros exp Hexp.
      apply elem_of_cons in Hexp as [->|Hexp]; [done|].
      apply elem_of_cons in Hexp as [->|Hexp]; [done|].
      by apply elem_of_nil in Hexp.
  - intros [_ Hno]%Hwarn. apply (Hno sample_set); [right; left|done].
  - intros [_ Hno]%Hwarn. apply (Hno sample_set_mh1); [left|done].
Defined.

Lemma explicit_sets_disable_filters_for_good_witness :
  let g1 := self_after (generate_labels letter_landscape two_set_api (Some ["LEA"])) in
  let g2 := self_after (generate_color_set_mode g1 two_set_api None) in
  ignored_sets letter_landscape = IGNORED_SETS
  ∧ minimum_set_size letter_landscape = 50
  ∧ (ignored_sets g1 = [] ∧ set_types g1 = [] ∧ minimum_set_size g1 = 0
     ∧ set_codes g1 = ["lea"])
  ∧ (ignored_sets g2 = [] ∧ set_types g2 = [] ∧ minimum_set_size g2 = 0
     ∧ set_codes g2 = ["lea"])
  ∧ (get_set_data g1 two_set_api).1 = [sample_set].
Proof.
  intros g1 g2.
  destruct (explicit_sets_disable_filters_for_good letter_landscape two_set_api
              "LEA" [] g1 (or_introl eq_refl)) as [Hfirst Hlater].
  destruct (Hlater two_set_api None g2 (or_introl eq_refl) (or_intror eq_refl))
    as (Hsecond & _ & Hsel).
  split; [reflexivity|]. split; [reflexivity|].
  split; [exact Hfirst|]. split; [exact Hsecond|].
  rewrite Hsel. reflexivity.
Defined.

(** * Further properties of the layout engine *)

(** ** Fill order of a page *)

(** The label of rank [k] on a page of uniform mode. *)
Lemma uniform_page_rank (self : LabelGenerator)
    (raw_items : list RawLabel) (pages : list (Page RawLabel))
    (p k : nat) (pg : Page RawLabel) (l : PositionedLabel RawLabel) :
  write_uniform_pages self (layout_labels self raw_items) = Some pages →
  pages !! p = Some pg →
  labels pg !! k = Some l →
  Z.of_nat k < ROWS * COLS
  ∧ ∃ it, raw_items !! (p * Z.to_nat (ROWS * COLS) + k)%nat = Some it
          ∧ l = {| item := it;
                   x := (inject_Z START_X
                         + inject_Z (Z.of_nat k / ROWS) * delta_x self)%Q;
                   y := (inject_Z START_Y
                         + inject_Z (Z.of_nat k mod ROWS) * delta_y self)%Q;
                   label_width := None; page_index := None |}.
Proof.
  intros Hrun Hp Hk.
  destruct (write_uniform_pages_chunks self (layout_labels self raw_items))
    as (pages' & Hrun' & _ & Hpages).
  rewrite Hrun in Hrun'. injection Hrun' as <-.
  destruct (Hpages p pg Hp) as [_ Hlabels]. rewrite Hlabels in Hk.
  apply chunk_lookup in Hk as [Hlt Hl].
  split; [lia|].
  destruct (lookup_lt_is_Some_2 raw_items (p * Z.to_nat (ROWS * COLS) + k))
    as [it Hit].
  { apply lookup_lt_Some in Hl. by rewrite layout_labels_length in Hl. }
  exists it. split; [exact Hit|].
  rewrite (layout_labels_lookup _ _ _ _ Hit) in Hl. injection Hl as <-.
  assert (Z.of_nat (p * Z.to_nat (ROWS * COLS) + k)
          = Z.of_nat k + Z.of_nat p * (ROWS * COLS)) as -> by lia.
  unfold ROWS, COLS in *.
  assert (∀ a b, (a + b * (15 * 4)) / 15 = a / 15 + b * 4) as Hdiv.
  { intros a b. replace (a + b * (15 * 4)) with (a + (b * 4) * 15) by lia.
    apply Z.div_add. lia. }
  assert (∀ a b, (a + b * (15 * 4)) mod 15 = a mod 15) as Hmod.
  { intros a b. replace (a + b * (15 * 4)) with (a + (b * 4) * 15) by lia.
    apply Z.mod_add. lia. }
  rewrite Hdiv, Hmod, Z.mod_add by lia.
  rewrite (Z.mod_small (Z.of_nat k / 15) 4); [done|].
  split; [apply Z.div_pos; lia|apply Z.div_lt_upper_bound; lia].
Qed.

(** X1. On every page written in uniform mode the label of rank [k] sits
    in column [k div ROWS] and row [k mod ROWS]: a page is filled column by
    column, top to bottom, the same way on every page, with the item of
    index [p * ROWS * COLS + k] of the run on the page of rank [p], which
    is numbered [p + 1]. *)
Theorem uniform_page_fill_order (self : LabelGenerator)
    (raw_items : list RawLabel) (pages : list (Page RawLabel))
    (p k : nat) (pg : Page RawLabel) (l : PositionedLabel RawLabel) :
  write_uniform_pages self (layout_labels self raw_items) = Some pages →
  pages !! p = Some pg →
  labels pg !! k = Some l →
  page pg = Z.of_nat p + 1
  ∧ Z.of_nat k < ROWS * COLS
  ∧ ∃ it, raw_items !! (p * Z.to_nat (ROWS * COLS) + k)%nat = Some it
          ∧ l = {| item := it;
                   x := (inject_Z START_X
                         + inject_Z (Z.of_nat k / ROWS) * delta_x self)%Q;
                   y := (inject_Z START_Y
                         + inject_Z (Z.of_nat k mod ROWS) * delta_y self)%Q;
                   label_width := None; page_index := None |}.
Proof.
  intros Hrun Hp Hk. split.
  - destruct (write_uniform_pages_chunks self (layout_labels self raw_items))
      as (pages' & Hrun' & _ & Hpages).
    rewrite Hrun in Hrun'. injection Hrun' as <-.
    destruct (Hpages p pg Hp) as [-> _]. lia.
  - exact (uniform_page_rank self raw_items pages p k pg l Hrun Hp Hk).
Qed.

Lemma uniform_page_fill_order_witness :
  ∃ pages pg l,
    write_uniform_pages letter_landscape
      (layout_labels letter_landscape (replicate 77 sample_label)) = Some pages
    ∧ pages !! 1%nat = Some pg ∧ labels pg !! 16%nat = Some l
    ∧ (x l == 100 + 1 * (2590 # 4))%Q ∧ (y l == 100 + 1 * (1960 # 15))%Q.
Proof.
  destruct (write_uniform_pages letter_landscape
              (layout_labels letter_landscape (replicate 77 sample_label)))
    as [pages|] eqn:Hrun; [|vm_compute in Hrun; discriminate].
  assert (∃ pg, pages !! 1%nat = Some pg) as [pg Hpg].
  { vm_compute in Hrun. injection Hrun as <-. eexists. reflexivity. }
  assert (∃ l, labels pg !! 16%nat = Some l) as [l Hl].
  { vm_compute in Hrun. injection Hrun as <-. injection Hpg as <-.
    eexists. reflexivity. }
  destruct (uniform_page_fill_order letter_landscape _ pages 1 16 pg l Hrun Hpg Hl)
    as (_ & _ & it & _ & ->).
  exists pages, pg. eexists. split; [reflexivity|]. split; [exact Hpg|].
  split; [exact Hl|]. split; reflexivity.
Defined.

(** The pages written by the loop of [generate_color_set_mode], as runs of
    the laid-out list. *)
Lemma write_wide_pages_chunks (self : LabelGenerator)
    (raw_items : list WideRawLabel) :
  let columns :=
    Z.max 1 ((width self - 2 * self_MARGIN self) / (WIDE_LABEL_MM * 10)) in
  let per_page := columns * ROWS in
  let wide := layout_wide_labels self raw_items in
  0 < per_page
  ∧ ∃ pages,
      write_wide_pages wide.1 wide.2 = Some pages
      ∧ Z.of_nat (length pages) = ceil_div (Z.of_nat (length raw_items)) per_page
      ∧ ∀ (p : nat) pg, pages !! p = Some pg →
          page pg = 1 + Z.of_nat p
          ∧ labels pg
            = take (Z.to_nat per_page) (drop (p * Z.to_nat per_page) wide.2).
Proof.
  intros columns per_page wide.
  assert (0 < per_page) as Hpp by (subst per_page columns; unfold ROWS; lia).
  split; [exact Hpp|].
  unfold write_wide_pages.
  change (default COLS (_wide_cols wide.1) * ROWS) with per_page.
  destruct (page_loop_chunks (wide_page wide.1) (length wide.2) per_page 1 wide.2)
    as (pages & Hrun & Hlen & Hnth); [done|done|].
  exists pages. split; [exact Hrun|]. split.
  { rewrite Hlen. subst wide. by rewrite layout_wide_labels_length. }
  intros p pg Hp.
  rewrite (Hnth p) in Hp by (by eapply lookup_lt_Some).
  by injection Hp as <-.
Qed.

(** The label of rank [k] on a page of wide mode. *)
Lemma wide_page_rank (self : LabelGenerator)
    (raw_items : list WideRawLabel) (pages : list (Page WideRawLabel))
    (p k : nat) (pg : Page WideRawLabel) (l : PositionedLabel WideRawLabel) :
  let cell_w := WIDE_LABEL_MM * 10 in
  let columns := Z.max 1 ((width self - 2 * self_MARGIN self) / cell_w) in
  let wide := layout_wide_labels self raw_items in
  write_wide_pages wide.1 wide.2 = Some pages →
  pages !! p = Some pg →
  labels pg !! k = Some l →
  Z.of_nat k < columns * ROWS
  ∧ Z.of_nat k / columns < ROWS
  ∧ ∃ it, raw_items !! (p * Z.to_nat (columns * ROWS) + k)%nat = Some it
          ∧ l = {| item := it;
                   x := inject_Z (START_X + (Z.of_nat k mod columns) * cell_w);
                   y := (inject_Z START_Y
                         + inject_Z (Z.of_nat k / columns) * delta_y self)%Q;
                   label_width := Some cell_w;
                   page_index := Some (Z.of_nat p) |}.
Proof.
  intros cell_w columns wide Hrun Hp Hk.
  destruct (write_wide_pages_chunks self raw_items)
    as (Hpp & pages' & Hrun' & _ & Hpages).
  fold cell_w columns wide in Hpp, Hrun', Hpages.
  rewrite Hrun in Hrun'. injection Hrun' as <-.
  destruct (Hpages p pg Hp) as [_ Hlabels]. rewrite Hlabels in Hk.
  apply chunk_lookup in Hk as [Hlt Hl].
  assert (0 < columns) as Hcols by lia.
  assert (Z.of_nat k < columns * ROWS) as Hk by lia.
  assert (0 ≤ Z.of_nat k / columns < ROWS) as Hrow.
  { split; [apply Z.div_pos; lia|apply Z.div_lt_upper_bound; lia]. }
  split; [exact Hk|]. split; [lia|].
  destruct (lookup_lt_is_Some_2 raw_items (p * Z.to_nat (columns * ROWS) + k))
    as [it Hit].
  { apply lookup_lt_Some in Hl. subst wide.
    by rewrite layout_wide_labels_length in Hl. }
  exists it. split; [exact Hit|].
  subst wide. rewrite (layout_wide_labels_lookup _ _ _ _ Hit) in Hl.
  injection Hl as <-. fold cell_w columns.
  rewrite chunk_index_page by lia.
  assert (Z.of_nat (p * Z.to_nat (columns * ROWS) + k)
          = Z.of_nat k + (Z.of_nat p * ROWS) * columns) as -> by lia.
  rewrite Z.mod_add, Z.div_add by lia.
  rewrite Z.mod_add by (unfold ROWS; lia).
  by rewrite (Z.mod_small (Z.of_nat k / columns) ROWS).
Qed.

(** X2. On every page written in wide mode the label of rank [k] sits in
    column [k mod columns] and row [k div columns]: a page is filled row
    by row, left to right, the same way on every page. *)
Theorem wide_page_fill_order (self : LabelGenerator)
    (raw_items : list WideRawLabel) (pages : list (Page WideRawLabel))
    (p k : nat) (pg : Page WideRawLabel) (l : PositionedLabel WideRawLabel) :
  let cell_w := WIDE_LABEL_MM * 10 in
  let columns := Z.max 1 ((width self - 2 * self_MARGIN self) / cell_w) in
  let wide := layout_wide_labels self raw_items in
  write_wide_pages wide.1 wide.2 = Some pages →
  pages !! p = Some pg →
  labels pg !! k = Some l →
  page pg = Z.of_nat p + 1
  ∧ Z.of_nat k < columns * ROWS
  ∧ Z.of_nat k / columns < ROWS
  ∧ ∃ it, raw_items !! (p * Z.to_nat (columns * ROWS) + k)%nat = Some it
          ∧ l = {| item := it;
                   x := inject_Z (START_X + (Z.of_nat k mod columns) * cell_w);
                   y := (inject_Z START_Y
                         + inject_Z (Z.of_nat k / columns) * delta_y self)%Q;
                   label_width := Some cell_w;
                   page_index := Some (Z.of_nat p) |}.
Proof.
  intros cell_w columns wide Hrun Hp Hk. split.
  - destruct (write_wide_pages_chunks self raw_items)
      as (_ & pages' & Hrun' & _ & Hpages).
    fold wide in Hrun'. rewrite Hrun in Hrun'. injection Hrun' as <-.
    destruct (Hpages p pg Hp) as [-> _]. lia.
  - exact (wide_page_rank self raw_items pages p k pg l Hrun Hp Hk).
Qed.

Lemma wide_page_fill_order_witness :
  let wide := layout_wide_labels letter_landscape (replicate 35 sample_wide_label) in
  ∃ pages pg l,
    write_wide_pages wide.1 wide.2 = Some pages
    ∧ pages !! 1%nat = Some pg ∧ labels pg !! 3%nat = Some l
    ∧ x l = inject_Z (100 + 1 * 880) ∧ (y l == 100 + 1 * (1960 # 15))%Q
    ∧ page_index l = Some 1.
Proof.
  intros wide.
  destruct (write_wide_pages wide.1 wide.2) as [pages|] eqn:Hrun;
    [|vm_compute in Hrun; discriminate].
  assert (∃ pg, pages !! 1%nat = Some pg) as [pg Hpg].
  { vm_compute in Hrun. injection Hrun as <-. eexists. reflexivity. }
  assert (∃ l, labels pg !! 3%nat = Some l) as [l Hl].
  { vm_compute in Hrun. injection Hrun as <-. injection Hpg as <-.
    eexists. reflexivity. }
  destruct (wide_page_fill_order letter_landscape _ pages 1 3 pg l Hrun Hpg Hl)
    as (_ & _ & _ & it & _ & ->).
  exists pages, pg. eexists. split; [reflexivity|]. split; [exact Hpg|].
  split; [exact Hl|]. split; [reflexivity|]. split; reflexivity.
Defined.

(** ** Labels of one page do not overlap *)

(** Two different cell numbers along an axis are at least one step apart. *)
Lemma offset_gap (start c1 c2 : Z) (delta : Q) :
  c1 ≠ c2 →
  (Qabs delta
   <= Qabs ((inject_Z start + inject_Z c1 * delta)
            - (inject_Z start + inject_Z c2 * delta)))%Q.
Proof.
  intros Hne.
  assert ((inject_Z start + inject_Z c1 * delta)
          - (inject_Z start + inject_Z c2 * delta)
          == inject_Z (c1 - c2) * delta)%Q as ->.
  { unfold Z.sub. rewrite inject_Z_plus, inject_Z_opp. ring. }
  rewrite Qabs_Qmult.
  rewrite <- (Qmult_1_l (Qabs delta)) at 1.
  apply Qmult_le_compat_r; [|apply Qabs_nonneg].
  change (Qabs (inject_Z (c1 - c2))) with (inject_Z (Z.abs (c1 - c2))).
  change 1%Q with (inject_Z 1). rewrite <- Zle_Qle. lia.
Qed.

(** X3. Two labels at different ranks of one page written in uniform mode
    are apart by at least one cell width along x or by at least one cell
    height along y: the cells of a page do not overlap.  No assumption on
    the geometry is needed. *)
Theorem uniform_cells_disjoint (self : LabelGenerator)
    (raw_items : list RawLabel) (pages : list (Page RawLabel))
    (p k1 k2 : nat) (pg : Page RawLabel) (l1 l2 : PositionedLabel RawLabel) :
  write_uniform_pages self (layout_labels self raw_items) = Some pages →
  pages !! p = Some pg →
  labels pg !! k1 = Some l1 → labels pg !! k2 = Some l2 → k1 ≠ k2 →
  (Qabs (delta_x self) <= Qabs (x l1 - x l2))%Q
  ∨ (Qabs (delta_y self) <= Qabs (y l1 - y l2))%Q.
Proof.
  intros Hrun Hp H1 H2 Hne.
  destruct (uniform_page_rank _ _ _ _ _ _ _ Hrun Hp H1) as (Hk1 & it1 & _ & ->).
  destruct (uniform_page_rank _ _ _ _ _ _ _ Hrun Hp H2) as (Hk2 & it2 & _ & ->).
  cbn [x y].
  destruct (decide (Z.of_nat k1 / ROWS = Z.of_nat k2 / ROWS)) as [Hcol|Hcol].
  - right. apply offset_gap. intros Hrow. apply Hne.
    pose proof (Z.div_mod (Z.of_nat k1) ROWS). pose proof (Z.div_mod (Z.of_nat k2) ROWS).
    unfold ROWS in *. lia.
  - left. by apply offset_gap.
Qed.

Lemma uniform_cells_disjoint_witness :
  ∃ pages pg l1 l2,
    write_uniform_pages letter_landscape
      (layout_labels letter_landscape (replicate 20 sample_label)) = Some pages
    ∧ pages !! 0%nat = Some pg
    ∧ labels pg !! 14%nat = Some l1 ∧ labels pg !! 15%nat = Some l2
    ∧ ((Qabs (2590 # 4) <= Qabs (x l1 - x l2))%Q
       ∨ (Qabs (1960 # 15) <= Qabs (y l1 - y l2))%Q).
Proof.
  destruct (write_uniform_pages letter_landscape
              (layout_labels letter_landscape (replicate 20 sample_label)))
    as [pages|] eqn:Hrun; [|vm_compute in Hrun; discriminate].
  assert (∃ pg, pages !! 0%nat = Some pg) as [pg Hpg].
  { vm_compute in Hrun. injection Hrun as <-. eexists. reflexivity. }
  assert (∃ l1 l2, labels pg !! 14%nat = Some l1 ∧ labels pg !! 15%nat = Some l2)
    as (l1 & l2 & H1 & H2).
  { vm_compute in Hrun. injection Hrun as <-. injection Hpg as <-.
    eexists _, _. split; reflexivity. }
  exists pages, pg, l1, l2.
  split; [reflexivity|]. split; [exact Hpg|]. split; [exact H1|]. split; [exact H2|].
  exact (uniform_cells_disjoint letter_landscape _ pages 0 14 15 pg l1 l2
           Hrun Hpg H1 H2 ltac:(lia)).
Defined.

(** X4. Two labels at different ranks of one page written in wide mode are
    apart by at least the label width along x or by at least one row
    height along y. *)
Theorem wide_cells_disjoint (self : LabelGenerator)
    (raw_items : list WideRawLabel) (pages : list (Page WideRawLabel))
    (p k1 k2 : nat) (pg : Page WideRawLabel)
    (l1 l2 : PositionedLabel WideRawLabel) :
  let wide := layout_wide_labels self raw_items in
  write_wide_pages wide.1 wide.2 = Some pages →
  pages !! p = Some pg →
  labels pg !! k1 = Some l1 → labels pg !! k2 = Some l2 → k1 ≠ k2 →
  (label_width l1 = Some (WIDE_LABEL_MM * 10)
   ∧ (inject_Z (WIDE_LABEL_MM * 10) <= Qabs (x l1 - x l2))%Q)
  ∨ (Qabs (delta_y self) <= Qabs (y l1 - y l2))%Q.
Proof.
  intros wide Hrun Hp H1 H2 Hne.
  destruct (wide_page_rank _ _ _ _ _ _ _ Hrun Hp H1) as (_ & _ & it1 & _ & ->).
  destruct (wide_page_rank _ _ _ _ _ _ _ Hrun Hp H2) as (_ & _ & it2 & _ & ->).
  cbn [x y label_width].
  set (columns := Z.max 1 ((width self - 2 * self_MARGIN self) / (WIDE_LABEL_MM * 10))).
  assert (0 < columns) as Hcols by lia.
  destruct (decide (Z.of_nat k1 mod columns = Z.of_nat k2 mod columns)) as [Hcol|Hcol].
  - right. apply offset_gap. intros Hrow. apply Hne.
    pose proof (Z.div_mod (Z.of_nat k1) columns).
    pose proof (Z.div_mod (Z.of_nat k2) columns).
    rewrite Hcol, Hrow in *. lia.
  - left. split; [done|].
    generalize (Z.of_nat k1 mod columns) (Z.of_nat k2 mod columns) Hcol.
    intros c1 c2 Hc. unfold START_X, MARGIN, WIDE_LABEL_MM.
    unfold Qminus, Qplus, Qopp, Qabs, Qle, inject_Z. cbn. lia.
Qed.

Lemma wide_cells_disjoint_witness :
  let wide := layout_wide_labels letter_landscape (replicate 5 sample_wide_label) in
  ∃ pages pg l1 l2,
    write_wide_pages wide.1 wide.2 = Some pages
    ∧ pages !! 0%nat = Some pg
    ∧ labels pg !! 0%nat = Some l1 ∧ labels pg !! 1%nat = Some l2
    ∧ ((label_width l1 = Some (WIDE_LABEL_MM * 10)
        ∧ (inject_Z (WIDE_LABEL_MM * 10) <= Qabs (x l1 - x l2))%Q)
       ∨ (Qabs (1960 # 15) <= Qabs (y l1 - y l2))%Q).
Proof.
  intros wide.
  destruct (write_wide_pages wide.1 wide.2) as [pages|] eqn:Hrun;
    [|vm_compute in Hrun; discriminate].
  assert (∃ pg, pages !! 0%nat = Some pg) as [pg Hpg].
  { vm_compute in Hrun. injection Hrun as <-. eexists. reflexivity. }
  assert (∃ l1 l2, labels pg !! 0%nat = Some l1 ∧ labels pg !! 1%nat = Some l2)
    as (l1 & l2 & H1 & H2).
  { vm_compute in Hrun. injection Hrun as <-. injection Hpg as <-.
    eexists _, _. split; reflexivity. }
  exists pages, pg, l1, l2.
  split; [reflexivity|]. split; [exact Hpg|]. split; [exact H1|]. split; [exact H2|].
  exact (wide_cells_disjoint letter_landscape _ pages 0 0 1 pg l1 l2
           Hrun Hpg H1 H2 ltac:(lia)).
Defined.

(** ** Pages of wide mode *)

Lemma layout_wide_labels_items {A : Type} (self : LabelGenerator) (raw_items : list A) :
  item <$> (layout_wide_labels self raw_items).2 = raw_items.
Proof.
  apply list_eq. intros i. cbn [layout_wide_labels snd].
  rewrite list_lookup_fmap, list_lookup_imap.
  by destruct (raw_items !! i).
Qed.

(** X5. In wide mode the page loop ends for every run of [N] items and
    writes [ceil (N / (columns * ROWS))] pages that give back the items in
    input order; no page is blank: each holds at least one label and at
    most [columns * ROWS], every page but the last is full, and the last
    holds [N mod (columns * ROWS)], or a full page when that is 0. *)
Theorem wide_pagination (self : LabelGenerator) (raw_items : list WideRawLabel) :
  let columns :=
    Z.max 1 ((width self - 2 * self_MARGIN self) / (WIDE_LABEL_MM * 10)) in
  let per_page := columns * ROWS in
  let N := Z.of_nat (length raw_items) in
  let wide := layout_wide_labels self raw_items in
  ∃ pages,
    write_wide_pages wide.1 wide.2 = Some pages
    ∧ Z.of_nat (length pages) = ceil_div N per_page
    ∧ item <$> concat (labels <$> pages) = raw_items
    ∧ (∀ (p : nat) pg, pages !! p = Some pg →
         1 ≤ Z.of_nat (length (labels pg)) ≤ per_page
         ∧ Z.of_nat (length (labels pg))
           = if decide (S p = length pages)
             then (if decide (N mod per_page = 0) then per_page
                   else N mod per_page)
             else per_page)
    ∧ (N = 0 → pages = []).
Proof.
  intros columns per_page N wide.
  destruct (write_wide_pages_chunks self raw_items)
    as (Hpp & pages & Hrun & Hlen & Hpages).
  fold columns per_page wide N in Hpp, Hrun, Hlen, Hpages.
  exists pages. split; [exact Hrun|]. split; [exact Hlen|]. split; [|split].
  - unfold write_wide_pages in Hrun.
    apply (page_loop_concat (wide_page wide.1) labels) in Hrun; [|done].
    rewrite Hrun. apply layout_wide_labels_items.
  - intros p pg Hp. destruct (Hpages p pg Hp) as [_ Hlabels].
    assert (Z.of_nat (length (labels pg))
            = if decide (S p = length pages)
              then (if decide (N mod per_page = 0) then per_page
                    else N mod per_page)
              else per_page) as Hsize.
    { rewrite Hlabels. subst N.
      rewrite <- (layout_wide_labels_length self raw_items). fold wide.
      apply chunk_length; [done| |by eapply lookup_lt_Some].
      subst wide. by rewrite layout_wide_labels_length. }
    split; [|exact Hsize].
    pose proof (Z.mod_pos_bound N per_page Hpp).
    rewrite Hsize. repeat case_decide; lia.
  - intros HN. rewrite HN, ceil_div_0 in Hlen by done.
    destruct pages; [done|cbn in Hlen; lia].
Qed.

Lemma wide_pagination_witness :
  let wide := layout_wide_labels letter_landscape (replicate 31 sample_wide_label) in
  ∃ first second,
    write_wide_pages wide.1 wide.2 = Some [first; second]
    ∧ length (labels first) = 30%nat ∧ length (labels second) = 1%nat.
Proof.
  intros wide.
  destruct (wide_pagination letter_landscape (replicate 31 sample_wide_label))
    as (pages & Hrun & Hlen & _ & Hpages & _).
  change (ceil_div _ _) with 2 in Hlen.
  destruct pages as [|first [|second [|third pages]]]; try (cbn in Hlen; lia).
  exists first, second. split; [exact Hrun|].
  destruct (Hpages 0%nat first eq_refl) as [_ H0].
  destruct (Hpages 1%nat second eq_refl) as [_ H1].
  split; apply Nat2Z.inj; [exact H0|exact H1].
Defined.

(** ** Labels and cutting guides *)





Lemma wide_guides_loop_all (self : LabelGenerator) (cell_w : Z) (indices : list Z) :
  (∀ i, i ∈ indices → self_MARGIN self + i * cell_w ≤ width self - self_MARGIN self) →
  length (wide_guides_loop self cell_w indices) = (2 * length indices)%nat.
Proof.
  induction indices as [|i indices IH]; intros Hall; [done|].
  cbn [wide_guides_loop].
  destruct (Z.gtb_spec (self_MARGIN self + i * cell_w) (width self - self_MARGIN self))
    as [Hgt|Hle].
  - specialize (Hall i ltac:(left)). lia.
  - cbn [length]. rewrite IH; [lia|]. intros j Hj. apply Hall. by right.
Qed.

(** X7. Before any wide layout [_wide_vertical_guides] returns no guide.
    After [layout_wide_labels], with [usable = width - 2 * MARGIN]: when
    [usable] is negative it still returns none (the loop breaks at once);
    otherwise it returns [floor (usable / cell_width) + 1] pairs of ticks,
    that is one pair only when not even one cell fits, the [break] then
    dropping the guide that would close the single clamped column. *)
Theorem wide_guide_count (self : LabelGenerator) (raw_items : list WideRawLabel) :
  let cell_w := WIDE_LABEL_MM * 10 in
  let usable := width self - 2 * self_MARGIN self in
  let self' := (layout_wide_labels self raw_items).1 in
  (_wide_cols self = None → _wide_vertical_guides self = [])
  ∧ (usable < 0 → _wide_vertical_guides self' = [])
  ∧ (0 ≤ usable →
     Z.of_nat (length (_wide_vertical_guides self')) = 2 * (usable / cell_w + 1)).
Proof.
  intros cell_w usable self'. split; [|split].
  - intros Hnone. unfold _wide_vertical_guides. by rewrite Hnone.
  - intros Hneg. unfold _wide_vertical_guides. cbn [self' layout_wide_labels fst
      set_wide_cols _wide_cols]. fold cell_w usable.
    assert (usable / cell_w < 0) as Hq by (apply Z.div_lt_upper_bound; [done|lia]).
    replace (Z.max 1 (usable / cell_w)) with 1 by lia.
    change (range (1 + 1)) with ([] ++ 0 :: [1]).
    rewrite wide_guides_loop_break; [done|].
    cbn [width self_MARGIN set_wide_cols]. subst usable. lia.
  - intros Hpos. unfold _wide_vertical_guides. cbn [self' layout_wide_labels fst
      set_wide_cols _wide_cols]. fold cell_w usable.
    pose proof (Z.div_mod usable cell_w) as Hdm.
    pose proof (Z.mod_pos_bound usable cell_w eq_refl) as Hr.
    assert (0 ≤ usable / cell_w) as Hq by (apply Z.div_pos; [done|done]).
    destruct (decide (usable / cell_w = 0)) as [H0|H0].
    + rewrite H0. change (range (Z.max 1 0 + 1)) with ([0] ++ 1 :: []).
      rewrite wide_guides_loop_break.
      * rewrite wide_guides_loop_all; [done|].
        intros i ->%list_elem_of_singleton.
        cbn [width self_MARGIN set_wide_cols]. subst usable. lia.
      * cbn [width self_MARGIN set_wide_cols]. subst usable cell_w.
        unfold WIDE_LABEL_MM in *. lia.
    + replace (Z.max 1 (usable / cell_w)) with (usable / cell_w) by lia.
      rewrite wide_guides_loop_all.
      * unfold range. rewrite length_seqZ. lia.
      * intros i Hi. apply elem_of_seqZ in Hi.
        cbn [width self_MARGIN set_wide_cols]. subst usable cell_w.
        unfold WIDE_LABEL_MM in *. nia.
Qed.

Lemma letter_no_room_init :
  __init__ "letter" "output" true false false (Some (150 # 1)) = Some letter_no_room.
Proof. reflexivity. Qed.

Lemma wide_guide_count_witness :
  _wide_vertical_guides letter_landscape = []
  ∧ _wide_vertical_guides
      (layout_wide_labels letter_no_room [sample_wide_label]).1 = []
  ∧ length (_wide_vertical_guides
              (layout_wide_labels letter_landscape [sample_wide_label]).1) = 6%nat
  ∧ length (_wide_vertical_guides
              (layout_wide_labels letter_narrow [sample_wide_label]).1) = 2%nat.
Proof.
  destruct (wide_guide_count letter_landscape [sample_wide_label]) as (Hnone & _ & Hfit).
  destruct (wide_guide_count letter_narrow [sample_wide_label]) as (_ & _ & Hclamp).
  destruct (wide_guide_count letter_no_room [sample_wide_label]) as (_ & Hneg & _).
  split; [exact (Hnone eq_refl)|].
  split; [exact (Hneg eq_refl)|].
  split; apply Nat2Z.inj.
  - exact (Hfit ltac:(vm_compute; congruence)).
  - exact (Hclamp ltac:(vm_compute; congruence)).
Defined.

(** ** Where the ticks are *)

(** The two ticks of a pair, along the axis they are drawn on: [near] runs
    from [m / 2] to [0.8 * m], [far] from [e - m / 2] to [e - 0.8 * m],
    where [e] is the far edge of the page. *)
Lemma tick_spans (m e : Z) :
  0 ≤ m →
  (0 <= half m ∧ half m <= four_fifths m ∧ four_fifths m <= inject_Z m
   ∧ Qabs (four_fifths m - half m) == (3 # 10) * inject_Z m)%Q
  ∧ (inject_Z e - inject_Z m <= inject_Z e - four_fifths m
     ∧ inject_Z e - four_fifths m <= inject_Z e - half m
     ∧ inject_Z e - half m <= inject_Z e
     ∧ Qabs ((inject_Z e - four_fifths m) - (inject_Z e - half m))
       == (3 # 10) * inject_Z m)%Q.
Proof.
  intros Hm. unfold half, four_fifths, true_div.
  unfold Qabs, Qeq, Qle, Qminus, Qplus, Qopp, Qmult, Qdiv, Qinv, inject_Z. cbn.
  repeat split; lia.
Qed.

(** X8. With a non-negative margin every cutting tick stays inside the
    margin band of the page and is [0.3 * MARGIN] long.  A vertical tick
    (uniform or wide) is a vertical segment lying between [0] and [MARGIN]
    from the top, or between [height - MARGIN] and [height]; a horizontal
    tick is a horizontal segment lying between [0] and [MARGIN] from the
    left, or between [width - MARGIN] and [width]. *)
Theorem guide_ticks_in_margin (self : LabelGenerator) :
  0 ≤ self_MARGIN self →
  let m := inject_Z (self_MARGIN self) in
  let in_band (a b edge : Q) :=
    ((0 <= a ∧ a <= b ∧ b <= m) ∨ (edge - m <= b ∧ b <= a ∧ a <= edge))%Q in
  (∀ g, g ∈ create_vertical_cutting_guides self ∨ g ∈ _wide_vertical_guides self →
     x1 g = x2 g
     ∧ (Qabs (y2 g - y1 g) == (3 # 10) * m)%Q
     ∧ in_band (y1 g) (y2 g) (inject_Z (height self)))
  ∧ (∀ g, g ∈ create_horizontal_cutting_guides self →
       y1 g = y2 g
       ∧ (Qabs (x2 g - x1 g) == (3 # 10) * m)%Q
       ∧ in_band (x1 g) (x2 g) (inject_Z (width self))).
Proof.
  intros Hm m in_band.
  destruct (tick_spans (self_MARGIN self) (height self) Hm)
    as ((Ht0 & Ht1 & Ht2 & Ht3) & (Hb0 & Hb1 & Hb2 & Hb3)).
  destruct (tick_spans (self_MARGIN self) (width self) Hm)
    as (_ & (Hr0 & Hr1 & Hr2 & Hr3)).
  split.
  - intros g [Hg|Hg].
    + unfold create_vertical_cutting_guides in Hg.
      apply list_elem_of_bind in Hg as (i & Hg & _).
      apply elem_of_cons in Hg as [->|Hg];
        [|apply elem_of_cons in Hg as [->|Hg]; [|by apply elem_of_nil in Hg]];
        cbn [x1 x2 y1 y2]; (split; [done|]); (split; [done|]);
        [left|right]; done.
    + unfold _wide_vertical_guides in Hg.
      destruct (_wide_cols self); [|by apply elem_of_nil in Hg].
      apply wide_guides_loop_within in Hg as (i & _ & _ & [-> | ->]);
        cbn [x1 x2 y1 y2]; (split; [done|]); (split; [done|]);
        [left|right]; done.
  - intros g Hg. unfold create_horizontal_cutting_guides in Hg.
    apply list_elem_of_bind in Hg as (i & Hg & _).
    apply elem_of_cons in Hg as [->|Hg];
      [|apply elem_of_cons in Hg as [->|Hg]; [|by apply elem_of_nil in Hg]];
      cbn [x1 x2 y1 y2]; (split; [done|]); (split; [done|]);
      [left|right]; done.
Qed.

Lemma guide_ticks_in_margin_witness :
  let g := {| x1 := inject_Z 100 + inject_Z 0 * (2590 # 4);
              x2 := inject_Z 100 + inject_Z 0 * (2590 # 4);
              y1 := half 100; y2 := four_fifths 100 |} in
  (Qabs (y2 g - y1 g) == 30)%Q ∧ (y2 g <= 100)%Q.
Proof.
  intros g.
  destruct (guide_ticks_in_margin letter_landscape ltac:(vm_compute; congruence))
    as [Hv _].
  assert (g ∈ create_vertical_cutting_guides letter_landscape) as Hg by left.
  destruct (Hv g (or_introl Hg)) as (_ & Hlen & [(_ & _ & Hin)|(Hout & _)]).
  - split; [etransitivity; [exact Hlen|reflexivity]|exact Hin].
  - exfalso. vm_compute in Hout. congruence.
Defined.

(** ** Construction *)



(** X10. For an instance built by [__init__] the guide grid spans exactly
    the area between the margins: the first vertical guide is at
    [x = MARGIN] and the last at [x = width - MARGIN], the first horizontal
    guide at [y = MARGIN] and the last at [y = height - MARGIN]. *)
Theorem guide_grid_spans_margins (paper_size output_dir : string)
    (generate_pdfs include_color_labels portrait : bool) (margin_mm : option Q)
    (self : LabelGenerator) :
  __init__ paper_size output_dir generate_pdfs include_color_labels portrait
    margin_mm = Some self →
  ∃ left_v right_v top_h bottom_h,
    create_vertical_cutting_guides self !! 0%nat = Some left_v
    ∧ last (create_vertical_cutting_guides self) = Some right_v
    ∧ create_horizontal_cutting_guides self !! 0%nat = Some top_h
    ∧ last (create_horizontal_cutting_guides self) = Some bottom_h
    ∧ (x1 left_v == inject_Z (self_MARGIN self))%Q
    ∧ (x1 right_v == inject_Z (width self - self_MARGIN self))%Q
    ∧ (y1 top_h == inject_Z (self_MARGIN self))%Q
    ∧ (y1 bottom_h == inject_Z (height self - self_MARGIN self))%Q.
Proof.
  unfold __init__. intros Hinit.
  destruct (PAPER_SIZES !! paper_size) as [paper|]; [|done].
  cbn in Hinit. injection Hinit as <-.
  eexists _, _, _, _.
  split; [reflexivity|]. split; [reflexivity|].
  split; [reflexivity|]. split; [reflexivity|].
  cbn [x1 y1 self_MARGIN width height delta_x delta_y].
  generalize (match margin_mm with Some m => py_round (m * 10) | None => MARGIN end).
  intros m. destruct paper as [w h], portrait; cbn [paper_width paper_height];
    unfold true_div, COLS, ROWS;
    unfold Qeq, Qplus, Qmult, Qdiv, Qinv, inject_Z; cbn;
    split_and!; lia.
Qed.

Lemma guide_grid_spans_margins_witness :
  ∃ right_v bottom_h,
    last (create_vertical_cutting_guides letter_narrow) = Some right_v
    ∧ last (create_horizontal_cutting_guides letter_narrow) = Some bottom_h
    ∧ (x1 right_v == 1790)%Q ∧ (y1 bottom_h == 1160)%Q.
Proof.
  destruct (guide_grid_spans_margins "letter" "output" true false false
              (Some (100 # 1)) letter_narrow eq_refl)
    as (lv & rv & th & bh & _ & Hrv & _ & Hbh & _ & Hx & _ & Hy).
  exists rv, bh. split; [exact Hrv|]. split; [exact Hbh|].
  split; [exact Hx|exact Hy].
Defined.




(** * Further properties of the catalog stages *)

(** ** Dictionaries built item by item *)

(** A dictionary filled by successive assignments holds, under a key, the
    last item assigned to it. *)
Lemma foldl_insert_lookup {V : Type} (key : V → string) (items : list V)
    (m0 : gmap string V) (k : string) :
  foldl (λ m it, <[ key it := it ]> m) m0 items !! k
  = match last (filter (λ it, key it = k) items) with
    | Some it => Some it
    | None => m0 !! k
    end.
Proof.
  revert m0. induction items as [|it items IH]; intros m0; [done|].
  cbn [foldl]. rewrite IH, filter_cons.
  destruct (decide (key it = k)) as [Hk|Hk].
  - rewrite last_cons. destruct (last (filter _ items)); [done|].
    by rewrite Hk, lookup_insert_eq.
  - destruct (last (filter _ items)); [done|]. by rewrite lookup_insert_ne.
Qed.

(** Keeping at most one element per element of a list gives a sublist. *)
Lemma bind_option_sublist {B C D : Type} (f : B → list C) (g : C → D) (h : B → D)
    (l : list B) :
  (∀ b, f b = [] ∨ g <$> f b = [h b]) → g <$> (l ≫= f) `sublist_of` h <$> l.
Proof.
  intros Hf. induction l as [|b l IH]; [done|].
  rewrite bind_cons, fmap_app, fmap_cons.
  destruct (Hf b) as [-> | ->]; cbn [app fmap list_fmap].
  - by apply sublist_cons.
  - by apply sublist_skip.
Qed.

(** ** Colour labels *)

(** The symbology item that [symbol_map] holds for a colour code: the
    last item with a non-empty [svg_uri] whose symbol, braces stripped, is
    the code. *)
Lemma symbol_map_lookup (data : list Symbol) (c : string) :
  foldl (λ m it, <[ strip_braces (symbol it) := it ]> m) (∅ : gmap string Symbol)
        (filter (λ it, has_svg_uri it = true) data) !! c
  = last (filter (λ it, strip_braces (symbol it) = c)
            (filter (λ it, has_svg_uri it = true) data)).
Proof.
  rewrite (foldl_insert_lookup (λ it, strip_braces (symbol it))).
  destruct (last _); [done|]. apply lookup_empty.
Qed.

(** X12. [get_color_label_raw] returns nothing when the symbology request
    fails.  Otherwise it returns at most one label per colour of
    [COLOR_SYMBOLS], in that order (W, U, B, R, G, C): a colour has its
    label exactly when some symbology item with a non-empty [svg_uri] has
    that code as its symbol without braces, and the label then carries the
    colour's name, no date, the URI of the last such item and the icon
    fetched from that URI. *)
Theorem color_labels_from_symbology (api : Scryfall) :
  let usable (data : list Symbol) (c : string) :=
    last (filter (λ it, strip_braces (symbol it) = c)
            (filter (λ it, has_svg_uri it = true) data)) in
  (symbology_data api = None → get_color_label_raw api = [])
  ∧ code <$> get_color_label_raw api `sublist_of` COLOR_SYMBOLS.*1
  ∧ ∀ data, symbology_data api = Some data →
      (∀ l, l ∈ get_color_label_raw api →
         (code l, name l) ∈ COLOR_SYMBOLS ∧ date l = None
         ∧ icon_b64 l = icon_b64_of api (icon_url l)
         ∧ ∃ it, usable data (code l) = Some it ∧ it ∈ data
                 ∧ svg_uri it = Some (icon_url l) ∧ icon_url l ≠ "")
      ∧ (∀ c n it, (c, n) ∈ COLOR_SYMBOLS → usable data c = Some it →
           ∃ l, l ∈ get_color_label_raw api ∧ code l = c ∧ name l = n).
Proof.
  intros usable. split; [|split].
  - intros Hnone. unfold get_color_label_raw. by rewrite Hnone.
  - unfold get_color_label_raw.
    destruct (symbology_data api) as [data|]; [|apply sublist_nil_l].
    apply bind_option_sublist.
    intros [c n]. cbn. destruct (_ !! c); [by right|by left].
  - intros data Hdata. unfold get_color_label_raw. rewrite Hdata.
    split.
    + intros l Hl. apply list_elem_of_bind in Hl as ([c n] & Hl & Hcn).
      rewrite symbol_map_lookup in Hl. fold (usable data c) in Hl.
      destruct (usable data c) as [it|] eqn:Hit; [|by apply elem_of_nil in Hl].
      apply list_elem_of_singleton in Hl as ->. cbn [code name date icon_b64 icon_url].
      split; [done|]. split; [done|]. split; [done|].
      exists it. split; [done|].
      apply last_Some_elem_of in Hit.
      apply list_elem_of_filter in Hit as [_ Hit].
      apply list_elem_of_filter in Hit as [Huri Hit].
      split; [done|]. unfold has_svg_uri in Huri.
      by destruct (svg_uri it) as [[|a u]|].
    + intros c n it Hcn Hit. eexists. split.
      * apply list_elem_of_bind. exists (c, n). split; [|done].
        rewrite symbol_map_lookup. fold (usable data c). rewrite Hit. by left.
      * done.
Qed.

Lemma color_labels_from_symbology_witness :
  let api := {| sets_data := [];
                symbology_data :=
                  Some [ {| symbol := "{W}"; svg_uri := Some "w1.svg" |};
                         {| symbol := "{T}"; svg_uri := Some "tap.svg" |};
                         {| symbol := "{G}"; svg_uri := None |};
                         {| symbol := "{W}"; svg_uri := Some "w2.svg" |} ];
                icon_b64_of := λ _, None |} in
  get_color_label_raw (sample_api 1) = []
  ∧ ∃ l, l ∈ get_color_label_raw api ∧ code l = "W" ∧ name l = "White".
Proof.
  intros api.
  destruct (color_labels_from_symbology (sample_api 1)) as (Hnone & _).
  destruct (color_labels_from_symbology api) as (_ & _ & Hsome).
  split; [exact (Hnone eq_refl)|].
  destruct (Hsome _ eq_refl) as [_ Hhas].
  exact (Hhas "W" "White" _ ltac:(left) eq_refl).
Defined.

(** ** Wide raw items *)

Lemma bind_ext_elem {B C : Type} (f g : B → list C) (l : list B) :
  (∀ b, b ∈ l → f b = g b) → l ≫= f = l ≫= g.
Proof.
  induction l as [|b l IH]; intros Hfg; [done|].
  rewrite !bind_cons, (Hfg b) by left. f_equal. apply IH.
  intros b' Hb'. apply Hfg. by right.
Qed.

(** The loop over [set_data] with its icon cache: each set gets the icon
    fetched for the first record that had its code. *)
Lemma icon_cache_loop (api : Scryfall)
    (inner : SetRecord → option string → list WideRawLabel)
    (set_data : list SetRecord) :
  (foldl
     (λ '(set_icon_cache, labels_raw) exp,
        let set_icon_cache : gmap string (option string) :=
          match set_icon_cache !! exp_code exp with
          | Some _ => set_icon_cache
          | None => <[ exp_code exp := icon_b64_of api (exp_icon_svg_uri exp) ]>
                      set_icon_cache
          end in
        let set_icon_b64 := default None (set_icon_cache !! exp_code exp) in
        (set_icon_cache, labels_raw ++ inner exp set_icon_b64))
     (∅, []) set_data).2
  = set_data ≫= λ exp, inner exp (first_set_icon api set_data (exp_code exp)).
Proof.
  set (step := λ '(set_icon_cache, labels_raw) exp, _).
  set (icon := λ e, icon_b64_of api (exp_icon_svg_uri e)).
  assert (∃ cache,
            (foldl step (∅, []) set_data).1 = cache
            ∧ (∀ c, cache !! c
                    = icon <$> head (filter (λ e, exp_code e = c) set_data))
            ∧ (foldl step (∅, []) set_data).2
              = set_data ≫= λ exp,
                  inner exp (first_set_icon api set_data (exp_code exp)))
    as (_ & _ & _ & H); [|exact H].
  induction set_data as [|x pre IH] using rev_ind.
  - exists ∅. split; [done|]. split; [|done]. intros c. by rewrite lookup_empty.
  - destruct IH as (cache & Hcache & Hlook & Hout).
    rewrite foldl_app. cbn [foldl].
    destruct (foldl step (∅, []) pre) as [cache0 out] eqn:Hfold.
    cbn [fst snd] in Hcache, Hout. subst cache0.
    assert (∀ c, head (filter (λ e, exp_code e = c) (pre ++ [x]))
                 = match head (filter (λ e, exp_code e = c) pre) with
                   | Some e => Some e
                   | None => if decide (exp_code x = c) then Some x else None
                   end) as Hhead.
    { intros c. rewrite filter_app, head_app.
      destruct (head (filter _ pre)); [done|].
      rewrite filter_cons, filter_nil. by destruct (decide (exp_code x = c)). }
    set (cache' := match cache !! exp_code x with
                   | Some _ => cache
                   | None => <[ exp_code x := icon x ]> cache
                   end).
    assert (∀ c, cache' !! c
                 = icon <$> head (filter (λ e, exp_code e = c) (pre ++ [x])))
      as Hlook'.
    { intros c. rewrite Hhead. subst cache'.
      destruct (decide (exp_code x = c)) as [<-|Hne].
      - pose proof (Hlook (exp_code x)) as Hx.
        destruct (cache !! exp_code x) as [v|] eqn:Hcx.
        + rewrite Hcx, Hx.
          by destruct (head (filter (λ e, exp_code e = exp_code x) pre)).
        + rewrite lookup_insert_eq.
          by destruct (head (filter (λ e, exp_code e = exp_code x) pre)).
      - assert (match cache !! exp_code x with
                | Some _ => cache
                | None => <[ exp_code x := icon x ]> cache
                end !! c = cache !! c) as ->.
        { destruct (cache !! exp_code x); [done|]. by rewrite lookup_insert_ne. }
        rewrite Hlook. by destruct (head (filter (λ e, exp_code e = c) pre)). }
    exists cache'.
    assert (step (cache, out) x
            = (cache', out ++ inner x (default None (cache' !! exp_code x))))
      as -> by done.
    cbn [fst snd].
    split; [done|]. split; [exact Hlook'|].
    rewrite bind_app, bind_singleton. f_equal.
    + rewrite Hout. apply bind_ext_elem. intros e He.
      f_equal. unfold first_set_icon. fold icon. rewrite Hhead.
      destruct (head (filter (λ e0, exp_code e0 = exp_code e) pre)) eqn:Hnone;
        [done|].
      exfalso. apply head_None in Hnone.
      apply (filter_nil_not_elem_of _ _ e) in Hnone; done.
    + f_equal. unfold first_set_icon. fold icon. by rewrite <- Hlook'.
Qed.

(** The loop over [COLOR_SYMBOLS] through [color_map] visits the colour
    labels themselves, in their order: the labels have distinct codes, all
    among those of [COLOR_SYMBOLS]. *)
Lemma color_map_loop {W : Type} (o : string → option Symbol)
    (entry : string → string → Symbol → RawLabel) (mk : string → RawLabel → W) :
  (∀ c n info, code (entry c n info) = c) →
  let color_entries :=
    '(c, n) ← COLOR_SYMBOLS;
    match o c with None => [] | Some info => [entry c n info] end in
  let color_map : gmap string RawLabel :=
    foldl (λ m e, <[ code e := e ]> m) ∅ color_entries in
  ('(ccode, _) ← COLOR_SYMBOLS;
   match color_map !! ccode with None => [] | Some cinfo => [mk ccode cinfo] end)
  = e ← color_entries; [mk (code e) e].
Proof.
  intros Hcode color_entries color_map. subst color_map color_entries.
  unfold COLOR_SYMBOLS. rewrite !bind_cons. cbv beta iota.
  destruct (o "W") as [w|], (o "U") as [u|], (o "B") as [b|],
    (o "R") as [r|], (o "G") as [g|], (o "C") as [c|];
    cbn [app mbind list_bind foldl]; rewrite ?Hcode;
    repeat (rewrite lookup_insert_eq || rewrite lookup_insert_ne by done);
    rewrite ?lookup_empty; cbn [app]; rewrite ?Hcode; reflexivity.
Qed.

Lemma length_bind_const {B C : Type} (f : B → list C) (n : nat) (l : list B) :
  (∀ b, length (f b) = n) → length (l ≫= f) = (length l * n)%nat.
Proof.
  intros Hf. induction l as [|b l IH]; [done|].
  rewrite bind_cons, length_app, Hf, IH. cbn [length]. lia.
Qed.

(** X13. The raw items of [generate_color_set_mode] are the product of the
    selected sets by the colour labels: for each selected set in order,
    one item per colour label in order, so their number is the number of
    sets times the number of colour labels.  Each item carries the renamed
    set name, and as set icon the one fetched for the first selected
    record with the same code: records sharing a code share the icon of
    the first of them, whatever their own icon URI. *)
Theorem color_set_raw_product (self : LabelGenerator) (api : Scryfall) :
  let set_data := (get_set_data self api).1 in
  color_set_raw self api = color_set_product self api
  ∧ length (color_set_raw self api)
    = (length set_data * length (get_color_label_raw api))%nat
  ∧ ∀ l, l ∈ color_set_raw self api →
      set_icon_b64 l = first_set_icon api set_data (set_code l)
      ∧ ∃ exp e, exp ∈ set_data ∧ e ∈ get_color_label_raw api
                 ∧ set_code l = exp_code exp ∧ set_name l = rename (exp_name exp)
                 ∧ color_code l = code e ∧ color_name l = name e
                 ∧ color_icon_b64 l = icon_b64 e.
Proof.
  intros set_data.
  assert (color_set_raw self api = color_set_product self api) as Heq.
  { unfold color_set_raw, color_set_product. fold set_data.
    rewrite (icon_cache_loop api
               (λ exp icon,
                  '(ccode, _) ← COLOR_SYMBOLS;
                  match foldl (λ m e, <[ code e := e ]> m) (∅ : gmap string RawLabel)
                          (get_color_label_raw api) !! ccode with
                  | None => []
                  | Some cinfo =>
                      [ {| set_name := rename (exp_name exp);
                           set_code := exp_code exp;
                           set_icon_b64 := icon;
                           color_code := ccode;
                           color_name := name cinfo;
                           color_icon_b64 := icon_b64 cinfo |} ]
                  end)).
    apply bind_ext_elem. intros exp _.
    unfold get_color_label_raw.
    destruct (symbology_data api) as [data|]; [|done].
    apply (color_map_loop
             (λ c, foldl (λ m it, <[ strip_braces (symbol it) := it ]> m)
                     (∅ : gmap string Symbol)
                     (filter (λ it, has_svg_uri it = true) data) !! c)
             (λ c n info,
                {| name := n; code := c; date := None;
                   icon_url := default "" (svg_uri info);
                   icon_b64 := icon_b64_of api (default "" (svg_uri info)) |})).
    done. }
  split; [exact Heq|]. rewrite Heq. unfold color_set_product. fold set_data.
  split.
  - apply length_bind_const. intros exp.
    rewrite (length_bind_const _ 1); [lia|done].
  - intros l Hl.
    apply list_elem_of_bind in Hl as (exp & Hl & Hexp).
    apply list_elem_of_bind in Hl as (e & Hl & He).
    apply list_elem_of_singleton in Hl as ->. cbn.
    split; [done|]. exists exp, e. by split_and!.
Qed.

Lemma color_set_raw_product_witness :
  length (color_set_raw letter_landscape duplicate_code_api) = 6%nat
  ∧ ∃ l, color_set_raw letter_landscape duplicate_code_api !! 4%nat = Some l
         ∧ set_name l = "Alpha reprint" ∧ set_icon_b64 l = Some "first.svg".
Proof.
  destruct (color_set_raw_product letter_landscape duplicate_code_api)
    as (_ & Hlen & Hitems).
  split; [exact Hlen|].
  assert (∃ l, color_set_raw letter_landscape duplicate_code_api !! 4%nat = Some l
               ∧ set_name l = "Alpha reprint" ∧ set_code l = "lea")
    as (l & Hl & Hname & Hcode) by (eexists; split_and!; reflexivity).
  exists l. split; [exact Hl|]. split; [exact Hname|].
  destruct (Hitems l (list_elem_of_lookup_2 _ _ _ Hl)) as [Hicon _].
  rewrite Hicon, Hcode. reflexivity.
Defined.

(** ** Explicit codes *)

(** X14. The explicit codes are case-insensitive: two calls whose code
    lists are equal once lowercased leave the same instance, log the same
    warnings and write the same pages, in either mode. *)
Theorem explicit_codes_case_insensitive (self : LabelGenerator) (api : Scryfall)
    (sets1 sets2 : list string) :
  lower <$> sets1 = lower <$> sets2 →
  generate_labels self api (Some sets1) = generate_labels self api (Some sets2)
  ∧ generate_color_set_mode self api (Some sets1)
    = generate_color_set_mode self api (Some sets2).
Proof.
  intros Hlow.
  assert (narrow self (Some sets1) = narrow self (Some sets2)) as Hnarrow.
  { destruct sets1 as [|a l1], sets2 as [|b l2]; try done.
    unfold narrow, set_filters. by rewrite Hlow. }
  unfold generate_labels, generate_color_set_mode. by rewrite Hnarrow.
Qed.

Lemma explicit_codes_case_insensitive_witness :
  generate_labels letter_landscape two_set_api (Some ["LEA"; "Mh1"])
  = generate_labels letter_landscape two_set_api (Some ["lea"; "mH1"]).
Proof.
  exact (proj1 (explicit_codes_case_insensitive letter_landscape two_set_api
                  ["LEA"; "Mh1"] ["lea"; "mH1"] eq_refl)).
Defined.







(** ** The rename table, again *)

Lemma RENAME_SETS_values_shorter (k v : string) :
  RENAME_SETS !! k = Some v →
  (String.length v ≤ String.length k)%nat
  ∧ (v ≠ k → (String.length v < String.length k)%nat).
Proof.
  revert k v.
  change (map_Forall (λ k v, (String.length v ≤ String.length k)%nat
                             ∧ (v ≠ k → (String.length v < String.length k)%nat))
            RENAME_SETS).
  apply (bool_decide_unpack _). vm_compute. exact I.
Qed.

(** X17. Renaming never lengthens a name, and a name it changes becomes
    strictly shorter. *)
Theorem rename_shortens (n : string) :
  (String.length (rename n) ≤ String.length n)%nat
  ∧ (rename n ≠ n → (String.length (rename n) < String.length n)%nat).
Proof.
  unfold rename. destruct (RENAME_SETS !! n) as [v|] eqn:Hn; cbn.
  - by apply RENAME_SETS_values_shorter.
  - split; [lia|done].
Qed.

Lemma rename_shortens_witness :
  (String.length (rename "Duel Decks: Mirrodin Pure vs. New Phyrexia") < 42)%nat.
Proof.
  destruct (rename_shortens "Duel Decks: Mirrodin Pure vs. New Phyrexia") as [_ H].
  apply H. vm_compute. discriminate.
Defined.

(** * Output file names *)

Lemma string_length_app (s t : string) :
  String.length (s +:+ t) = (String.length s + String.length t)%nat.
Proof.
  induction s as [|c s IH]; [done|].
  change (String c s +:+ t) with (String c (s +:+ t)). cbn. by rewrite IH.
Qed.

(** Two strings with suffixes of one length are equal only piecewise. *)
Lemma string_app_inj_suffix (s1 s2 t1 t2 : string) :
  String.length t1 = String.length t2 →
  s1 +:+ t1 = s2 +:+ t2 → s1 = s2 ∧ t1 = t2.
Proof.
  intros Hlen. revert s2.
  induction s1 as [|c s1 IH]; intros [|c' s2] Heq.
  - done.
  - apply (f_equal String.length) in Heq.
    rewrite !string_length_app in Heq. cbn in Heq. lia.
  - apply (f_equal String.length) in Heq.
    rewrite !string_length_app in Heq. cbn in Heq. lia.
  - change (String c (s1 +:+ t1) = String c' (s2 +:+ t2)) in Heq.
    injection Heq as -> Heq. destruct (IH _ Heq) as [-> ->]. done.
Qed.

(** The numeral of a positive number starts with a digit other than 0. *)
Lemma pretty_N_go_head (n : N) (s : string) :
  (0 < n)%N →
  ∃ d t, (0 < d < 10)%N ∧ pretty_N_go n s = String (pretty_N_char d) t.
Proof.
  revert s. induction (N.lt_wf_0 n) as [n _ IH]; intros s Hn.
  rewrite pretty_N_go_step by done.
  destruct (decide (n < 10)%N) as [Hsmall|Hbig].
  - rewrite N.div_small, pretty_N_go_0 by done.
    exists (n `mod` 10)%N, s. split; [|done].
    rewrite N.mod_small by done. lia.
  - apply IH.
    + apply N.div_lt; lia.
    + apply N.div_str_pos. lia.
Qed.

Lemma pretty_Z_head (z : Z) :
  (z = 0 ∧ pretty z = "0")
  ∨ (∃ d t, (0 < d < 10)%N ∧ pretty z = String (pretty_N_char d) t)
  ∨ (∃ t, pretty z = String "-" t).
Proof.
  destruct z as [|p|p].
  - by left.
  - right; left. unfold pretty, pretty_Z, pretty, pretty_positive, pretty, pretty_N.
    rewrite decide_False by done. by apply pretty_N_go_head.
  - right; right. by eexists.
Qed.

Lemma pretty_N_char_not_0 (d : N) : (0 < d < 10)%N → pretty_N_char d ≠ "0"%char.
Proof.
  intros Hd Heq. apply (pretty_N_char_inj d 0) in Heq; lia.
Qed.

(** [{page:02}] tells pages apart. *)
Lemma format_02_inj (p q : Z) : format_02 p = format_02 q → p = q.
Proof.
  assert (∀ a b : Z, (String.length (pretty a) <? 2)%nat = true →
                 (String.length (pretty b) <? 2)%nat = false →
                 "0" +:+ pretty a ≠ pretty b) as Hmixed.
  { intros a b Ha Hb Heq.
    destruct (pretty_Z_head b) as [[_ Hb0]|[(d & t & Hd & Hbd)|(t & Hbn)]].
    - by rewrite Hb0 in Hb.
    - rewrite Hbd in Heq. injection Heq as Heq _.
      by apply (pretty_N_char_not_0 d).
    - by rewrite Hbn in Heq. }
  unfold format_02.
  destruct (String.length (pretty p) <? 2)%nat eqn:Hp,
    (String.length (pretty q) <? 2)%nat eqn:Hq; intros Heq.
  - apply String.app_inj in Heq. by apply (inj pretty).
  - by destruct (Hmixed p q).
  - by destruct (Hmixed q p).
  - by apply (inj pretty).
Qed.

(** X18. The file names of a run tell its pages apart and never clash:
    each of the four name patterns is injective in the page number, an
    SVG name is never a PDF name, and for a known paper size a name of
    uniform mode is never a name of wide mode; so the pages written by one
    call of [generate_labels] go to pairwise different files. *)
Theorem output_file_names (self : LabelGenerator) :
  (∀ p q, labels_svg self p = labels_svg self q → p = q)
  ∧ (∀ p q, labels_pdf self p = labels_pdf self q → p = q)
  ∧ (∀ p q, color_set_svg self p = color_set_svg self q → p = q)
  ∧ (∀ p q, color_set_pdf self p = color_set_pdf self q → p = q)
  ∧ (∀ p q, labels_svg self p ≠ labels_pdf self q
            ∧ color_set_svg self p ≠ color_set_pdf self q)
  ∧ (is_Some (PAPER_SIZES !! paper_size self) →
     ∀ p q, labels_svg self p ≠ color_set_svg self q
            ∧ labels_pdf self p ≠ color_set_pdf self q)
  ∧ (∀ api sets pages (i j : nat) pgi pgj,
       written (generate_labels self api sets) = Some pages →
       pages !! i = Some pgi → pages !! j = Some pgj → i ≠ j →
       labels_svg (narrow self sets) (page pgi)
       ≠ labels_svg (narrow self sets) (page pgj)).
Proof.
  assert (∀ pre ext1 ext2 p q,
            String.length ext1 = String.length ext2 →
            pre +:+ paper_size self +:+ orient self +:+ "-" +:+ format_02 p +:+ ext1
            = pre +:+ paper_size self +:+ orient self +:+ "-" +:+ format_02 q +:+ ext2 →
            p = q ∧ ext1 = ext2) as Hname.
  { intros pre ext1 ext2 p q Hlen Heq.
    do 4 apply String.app_inj in Heq.
    apply string_app_inj_suffix in Heq as [Heq ->]; [|done].
    split; [by apply format_02_inj|done]. }
  split_and!.
  - intros p q Heq. by apply (Hname _ _ _ _ _ eq_refl) in Heq as [-> _].
  - intros p q Heq. by apply (Hname _ _ _ _ _ eq_refl) in Heq as [-> _].
  - intros p q Heq. by apply (Hname _ _ _ _ _ eq_refl) in Heq as [-> _].
  - intros p q Heq. by apply (Hname _ _ _ _ _ eq_refl) in Heq as [-> _].
  - intros p q. split; intros Heq.
    + by apply (Hname "labels-" ".svg" ".pdf" p q eq_refl) in Heq as [_ ?].
    + by apply (Hname "labels-color-set-" ".svg" ".pdf" p q eq_refl) in Heq as [_ ?].
  - intros [paper Hpaper] p q.
    assert (paper_size self = "letter" ∨ paper_size self = "a4") as Hps.
    { unfold PAPER_SIZES in Hpaper. rewrite !lookup_insert in Hpaper.
      repeat case_decide; simplify_eq; auto. }
    unfold labels_svg, labels_pdf, color_set_svg, color_set_pdf.
    destruct Hps as [-> | ->]; split; intros Heq;
      cbv [String.append] in Heq; discriminate Heq.
  - intros api sets pages i j pgi pgj Hrun Hi Hj Hne Heq.
    unfold generate_labels in Hrun. cbn [written] in Hrun.
    destruct (write_uniform_pages_chunks (narrow self sets)
                (layout_labels (narrow self sets)
                   (uniform_raw_items (narrow self sets) api)))
      as (pages' & Hrun' & _ & Hpages).
    rewrite Hrun in Hrun'. injection Hrun' as <-.
    destruct (Hpages i pgi Hi) as [Hpi _]. destruct (Hpages j pgj Hj) as [Hpj _].
    unfold labels_svg in Heq.
    do 4 apply String.app_inj in Heq.
    apply string_app_inj_suffix in Heq as [Heq _]; [|done].
    apply format_02_inj in Heq. lia.
Qed.

Lemma output_file_names_witness :
  labels_svg letter_landscape 1 = "labels-letter-01.svg"
  ∧ color_set_pdf letter_landscape 12 = "labels-color-set-letter-12.pdf"
  ∧ labels_svg letter_landscape 1 ≠ labels_svg letter_landscape 2
  ∧ labels_svg letter_landscape 1 ≠ color_set_svg letter_landscape 1
  ∧ ∃ first second,
      written (generate_labels letter_landscape (sample_api 61) None)
      = Some [first; second]
      ∧ labels_svg letter_landscape (page first)
        ≠ labels_svg letter_landscape (page second).
Proof.
  destruct (output_file_names letter_landscape)
    as (Hinj & _ & _ & _ & _ & Hmodes & Hrun).
  split; [reflexivity|]. split; [reflexivity|].
  split. { intros Heq. apply Hinj in Heq. discriminate Heq. }
  split. { exact (proj1 (Hmodes (mk_is_Some _ _ eq_refl) 1 1)). }
  destruct (written (generate_labels letter_landscape (sample_api 61) None))
    as [pages|] eqn:Hpages; [|vm_compute in Hpages; discriminate].
  assert (∃ first second, pages = [first; second]) as (first & second & ->).
  { vm_compute in Hpages. injection Hpages as <-. eexists _, _. reflexivity. }
  exists first, second. split; [reflexivity|].
  exact (Hrun (sample_api 61) None [first; second] 0%nat 1%nat first second
           Hpages eq_refl eq_refl ltac:(lia)).
Defined.

(** * What a mode does not look at *)

Lemma page_loop_ext {A P : Type} (f g : Z → list A → P) (fuel : nat)
    (per_page first : Z) (labels : list A) :
  (∀ k exps, f k exps = g k exps) →
  page_loop fuel per_page f first labels = page_loop fuel per_page g first labels.
Proof.
  intros Hfg. revert first labels.
  induction fuel as [|fuel IH]; intros first [|l rest]; try done.
  cbn [page_loop]. destruct (fill_page _ _ _) as [exps left].
  by rewrite Hfg, IH.
Qed.

(** The wide guides only read the margin, the page size and the stored
    column count. *)
Lemma wide_vertical_guides_fields (s1 s2 : LabelGenerator) :
  self_MARGIN s1 = self_MARGIN s2 → width s1 = width s2 →
  height s1 = height s2 → _wide_cols s1 = _wide_cols s2 →
  _wide_vertical_guides s1 = _wide_vertical_guides s2.
Proof.
  intros Hm Hw Hh Hc. unfold _wide_vertical_guides. rewrite Hc.
  destruct (_wide_cols s2) as [wide_cols|]; [|done].
  generalize (range (wide_cols + 1)). intros indices.
  induction indices as [|i indices IH]; [done|].
  cbn [wide_guides_loop]. by rewrite Hm, Hw, Hh, IH.
Qed.

(** X19. Wide mode ignores the colour-label flag: two instances built from
    the same arguments but for [include_color_labels] log the same
    warnings and write the same pages in [generate_color_set_mode].  And
    [generate_labels] without that flag does not depend on the symbology
    answer at all. *)
Theorem color_flag_scope (paper_size output_dir : string)
    (generate_pdfs portrait : bool) (margin_mm : option Q)
    (with_colors without_colors : LabelGenerator) (api : Scryfall)
    (sets : option (list string)) :
  __init__ paper_size output_dir generate_pdfs true portrait margin_mm
    = Some with_colors →
  __init__ paper_size output_dir generate_pdfs false portrait margin_mm
    = Some without_colors →
  (written (generate_color_set_mode with_colors api sets)
   = written (generate_color_set_mode without_colors api sets)
   ∧ warned (generate_color_set_mode with_colors api sets)
     = warned (generate_color_set_mode without_colors api sets))
  ∧ ∀ symbology,
      generate_labels without_colors api sets
      = generate_labels without_colors
          {| sets_data := sets_data api; symbology_data := symbology;
             icon_b64_of := icon_b64_of api |} sets.
Proof.
  unfold __init__. intros Hwith Hwithout.
  destruct (PAPER_SIZES !! paper_size) as [paper|]; [|done].
  cbn in Hwith, Hwithout. simplify_eq.
  split.
  - split; [|destruct sets as [[|s ss]|]; reflexivity].
    unfold generate_color_set_mode, write_wide_pages.
    destruct sets as [[|s ss]|];
      cbn [narrow written layout_wide_labels fst snd];
      (etrans; [apply page_loop_ext|reflexivity]);
      intros k exps; unfold wide_page; f_equal;
      by apply wide_vertical_guides_fields.
  - intros symbology. destruct sets as [[|s ss]|]; reflexivity.
Qed.

Lemma color_flag_scope_witness :
  ∃ with_colors,
    __init__ "letter" "output" true true false None = Some with_colors
    ∧ written (generate_color_set_mode with_colors duplicate_code_api None)
      = written (generate_color_set_mode letter_landscape duplicate_code_api None).
Proof.
  eexists. split; [reflexivity|].
  exact (proj1 (proj1 (color_flag_scope "letter" "output" true false None _ _
                         duplicate_code_api None eq_refl eq_refl))).
Defined.

(** * More on page bounds and columns *)

(** X20. Whenever the deltas are the ones [__init__] derives, twice the
    margin in force is at least the fixed origin [START_X = START_Y] and
    at most the page width and height, every label of uniform mode lies
    on the page with its whole cell; so does every label of wide mode when
    the page is also wide enough for one cell after the origin. *)
Theorem labels_on_page (self : LabelGenerator) :
  delta_x self = true_div (width self - 2 * self_MARGIN self) COLS →
  delta_y self = true_div (height self - 2 * self_MARGIN self) ROWS →
  START_X ≤ 2 * self_MARGIN self →
  2 * self_MARGIN self ≤ width self →
  2 * self_MARGIN self ≤ height self →
  (∀ (raw_items : list RawLabel) i l,
     layout_labels self raw_items !! i = Some l →
     (0 <= x l ∧ x l + delta_x self <= inject_Z (width self)
      ∧ 0 <= y l ∧ y l + delta_y self <= inject_Z (height self))%Q)
  ∧ (START_X + WIDE_LABEL_MM * 10 ≤ width self →
     ∀ (raw_items : list WideRawLabel) i l,
       (layout_wide_labels self raw_items).2 !! i = Some l →
       (0 <= x l ∧ x l + inject_Z (WIDE_LABEL_MM * 10) <= inject_Z (width self)
        ∧ 0 <= y l ∧ y l + delta_y self <= inject_Z (height self))%Q).
Proof.
  intros Hdx Hdy Hstart Hw Hh. split.
  - intros raw_items i l Hl. by eapply uniform_label_in_page.
  - intros Hone raw_items i l Hl. by eapply wide_label_in_page.
Qed.

Lemma labels_on_page_witness :
  ∃ l, layout_labels letter_landscape (replicate 60 sample_label) !! 59%nat = Some l
       ∧ (x l + (2590 # 4) <= 2790)%Q ∧ (y l + (1960 # 15) <= 2160)%Q.
Proof.
  destruct (labels_on_page letter_landscape eq_refl eq_refl
              ltac:(vm_compute; congruence) ltac:(vm_compute; congruence)
              ltac:(vm_compute; congruence)) as [Huniform _].
  eexists. split; [reflexivity|].
  destruct (Huniform (replicate 60 sample_label) 59%nat _ eq_refl)
    as (_ & Hx & _ & Hy).
  split; [exact Hx|exact Hy].
Defined.

Lemma default_margin_labels_in_page_witness :
  ∃ self l,
    __init__ "a4" "output" true false true None = Some self
    ∧ (layout_wide_labels self (replicate 30 sample_wide_label)).2 !! 29%nat = Some l
    ∧ width self = 2100 ∧ (x l + 880 <= inject_Z (width self))%Q.
Proof.
  assert (∃ self, __init__ "a4" "output" true false true None = Some self)
    as [self Hinit] by (eexists; reflexivity).
  assert (∃ l, (layout_wide_labels self (replicate 30 sample_wide_label)).2 !! 29%nat
               = Some l) as [l Hl].
  { vm_compute in Hinit. injection Hinit as <-. eexists. reflexivity. }
  exists self, l. split; [exact Hinit|]. split; [exact Hl|].
  split; [by injection Hinit as <-|].
  destruct (default_margin_labels_in_page "a4" "output" true false true self Hinit
              WideRawLabel (replicate 30 sample_wide_label) 29%nat l)
    as [_ Hwide].
  exact (proj1 (proj2 (Hwide Hl))).
Defined.

(** X22. In wide mode, as soon as one cell fits between the margins, the
    stored column count is the largest number of cells that fit: the
    columns take at most the usable width, and one more would not fit.
    The count never decreases when the page gets wider. *)
Theorem wide_columns_fit (self wider : LabelGenerator) :
  let cell_w := WIDE_LABEL_MM * 10 in
  let usable (g : LabelGenerator) := width g - 2 * self_MARGIN g in
  let columns (g : LabelGenerator) :=
    default 0 (_wide_cols (layout_wide_labels g ([] : list WideRawLabel)).1) in
  (cell_w ≤ usable self →
   columns self * cell_w ≤ usable self < (columns self + 1) * cell_w)
  ∧ (usable self ≤ usable wider → columns self ≤ columns wider).
Proof.
  intros cell_w usable columns. subst columns usable.
  cbn [layout_wide_labels fst set_wide_cols _wide_cols default]. fold cell_w.
  generalize (width self - 2 * self_MARGIN self)
             (width wider - 2 * self_MARGIN wider).
  intros u u'. split.
  - intros Hfit.
    pose proof (Z.div_mod u cell_w ltac:(done)) as Hdm.
    pose proof (Z.mod_pos_bound u cell_w eq_refl) as Hr.
    assert (1 ≤ u / cell_w) as Hq by (apply Z.div_le_lower_bound; [done|lia]).
    revert Hdm Hr Hq. generalize (u / cell_w) (u `mod` cell_w).
    subst cell_w. unfold WIDE_LABEL_MM, id. intros q r Hdm Hr Hq. lia.
  - intros Hle.
    assert (u / cell_w ≤ u' / cell_w) by (apply Z.div_le_mono; [done|exact Hle]).
    unfold id. lia.
Qed.

Lemma wide_columns_fit_witness :
  _wide_cols (layout_wide_labels letter_landscape ([] : list WideRawLabel)).1 = Some 2
  ∧ _wide_cols (layout_wide_labels letter_narrow ([] : list WideRawLabel)).1 = Some 1
  ∧ 2 * 880 ≤ 2590 < 3 * 880 ∧ 1 ≤ 2.
Proof.
  destruct (wide_columns_fit letter_landscape letter_landscape) as [Hfit _].
  destruct (wide_columns_fit letter_narrow letter_landscape) as [_ Hmono].
  split; [reflexivity|]. split; [reflexivity|].
  split; [exact (Hfit ltac:(vm_compute; congruence))|].
  exact (Hmono ltac:(vm_compute; congruence)).
Defined.

(** * The command line *)


